(** * daily_sync: a one-way rclone synchroniser, embedded in Rocq.

    The development follows [daily_sync.py] function by function.  The
    remote tool ([rclone ls], [about], [hashsum], [copyto], [delete]), the
    wall clock and the two library functions the script relies on
    ([hashlib.md5(..).hexdigest()], [strftime('%Y-%m-%d')]) are collected in
    an environment record [Env]; every answer of the environment may depend
    on the whole history of the run.  The script itself is a computation in
    a small state-and-exception monad over a [World]: the chronological
    trace of external calls, log records and cache writes, and the content
    of the cache directory.

    Not embedded: [setup_logging], the argument parser and
    [file_exists_at_dest], which nothing calls.  [sync_files] starts from
    the pairs that [parse_transfers] keeps; [parse_transfers] itself is
    embedded after the script, as a function that returns the pairs kept
    and the arguments reported.

    A string is the UTF-8 encoding of a Python [str]: the characters of
    ASCII are single bytes, and the white space of [str.split()] and
    [str.strip()] outside ASCII is recognised by its two or three bytes.
    The free percentage is computed in binary64, with the rounding of
    IEEE 754 written out on integers ([SpecFloat]). *)

From stdpp Require Import base gmap list strings pretty.
From Stdlib Require Import Ascii String ZArith QArith Lia.
From Stdlib Require SpecFloat.

Open Scope string_scope.
Open Scope list_scope.
Open Scope Z_scope.

(** ** Data model *)

(** One item of [rclone ls] / of a cache file: a JSON object with keys
    ["Path"], ["Size"], ["IsDir"] and ["Hashes"]; [md5] is the ["md5"]
    member of ["Hashes"], absent when either key is absent. *)
Record Entry := {
  Path : string;
  Size : option Z;
  IsDir : option bool;
  md5 : option string
}.

Inductive Level := DEBUG | INFO | WARNING | ERROR.

(** The log sites of the script; each carries what its f-string prints
    that matters here. *)
Inductive Msg :=
| ProbeStart (remote_path : string)
| ProbeOk (remote_path : string)
| ProbeFailed (remote_path : string)
| CacheHit (cache_file : string)
| SourceTreeMissing (remote_path : string)
| DestTreeMissing (remote_path : string)
| CacheBuild (remote_path : string)
| ListingFailed
| HashStart (remote_path : string)
| HashValue (remote_path hash_value : string)
| HashEmpty (remote_path : string)
| HashFailed (remote_path : string)
| DeleteStart (remote_path : string)
| DeleteOk (remote_path : string)
| DeleteFailed (remote_path : string)
| PlanCacheHit (cache_file : string)
| NothingToSync (source : string)
| HashDiffers (src_path : string)
| MissingAtDest (src_path : string)
| StopAt (stop_time : Z)
| NoValidPairs
| CapacityFailed (destination : string)
| LowSpace (destination : string)
| PairStart (source destination : string)
| AllSynced (source : string)
| CannotList (source : string)
| PlanSize (source : string) (n : nat)
| DeadlineReached (current_time : Z)
| Finished (total_copied total_size_copied : Z)
| SizeSoFar (total_size_copied : Z)
| VolumeCap
| NoSpaceFor (path : string)
| SpaceOk (path : string)
| SourceFileMissing (src_path : string)
| SourceCheckError (src_path : string)
| Copying (path : string)
| CopyVerified (path : string)
| HashMismatch (path : string)
| DeletedBad (path : string)
| Retrying (path : string)
| RetryVerified (path : string)
| RetryMismatch (path : string)
| RetryFailed (path error_msg : string)
| CannotDeleteBad (path : string)
| CopyFailed (path error_msg : string)
| QuotaStop (error_msg : string).

(** Everything the run does that is visible from outside. *)
Inductive Event :=
| ELs (remote_path : string) (max_depth : option Z) (args : list string)
| EAbout (remote : string)
| EHashsum (algo remote_path : string)
| ECopyto (src_path dest_path : string)
| EDelete (remote_path : string)
| ELog (lvl : Level) (msg : Msg)
| ECacheWrite (cache_file : string) (content : list Entry).

(** What [rclone about .. --json] can look like to the script. *)
Inductive Field := Missing | NotNumeric | Num (z : Z).

Inductive AboutOut :=
| AboutExit (stderr : string)            (* CalledProcessError *)
| AboutBadJson                           (* json.loads raises JSONDecodeError *)
| AboutData (total free : Field).

(** [subprocess.run(.., check=True)]: the standard output, or the return
    code and standard error of a [CalledProcessError]. *)
Inductive ProcOut :=
| Stdout (out : string)
| Failed (returncode : Z) (stderr : string).

Record Env := {
  rclone_ls : list Event → string → option Z → list string → option (list Entry);
  rclone_about : list Event → string → AboutOut;
  rclone_hashsum : list Event → string → string → ProcOut;
  rclone_copyto : list Event → string → string → ProcOut;
  rclone_delete : list Event → string → ProcOut;
  clock : list Event → Z;
  md5_hexdigest : string → string;
  strftime_ymd : Z → string
}.

Record World := {
  trace : list Event;
  cache : gmap string (list Entry)
}.

(** ** The monad: state over [World], with Python exceptions *)

Inductive Exn := ValueError | IndexError | OverflowError.

Inductive Res (A : Type) :=
| Done (a : A) (w : World)
| Crash (e : Exn) (w : World).
Arguments Done {A} a w.
Arguments Crash {A} e w.

Definition M (A : Type) : Type := World → Res A.

Definition ret {A} (a : A) : M A := fun w => Done a w.

Definition bind {A B} (m : M A) (k : A → M B) : M B :=
  fun w => match m w with
           | Done a w' => k a w'
           | Crash e w' => Crash e w'
           end.

Definition raise {A} (e : Exn) : M A := fun w => Crash e w.

Notation "'let*' x := m 'in' k" := (bind m (fun x => k))
  (at level 10, x pattern, m at level 100, k at level 200).

Definition world_of {A} (r : Res A) : World :=
  match r with Done _ w => w | Crash _ w => w end.

Definition value_of {A} (r : Res A) : option A :=
  match r with Done a _ => Some a | Crash _ _ => None end.

Definition emit (e : Event) : M unit :=
  fun w => Done tt {| trace := trace w ++ [e]; cache := cache w |}.

Definition log (lvl : Level) (msg : Msg) : M unit := emit (ELog lvl msg).

(** [os.path.exists(cache_file)] followed by [json.load]. *)
Definition read_cache (cache_file : string) : M (option (list Entry)) :=
  fun w => Done (cache w !! cache_file) w.

(** [open(cache_file, 'w')] followed by [json.dump]. *)
Definition write_cache (cache_file : string) (content : list Entry) : M unit :=
  fun w => Done tt {| trace := trace w ++ [ECacheWrite cache_file content];
                      cache := <[cache_file := content]> (cache w) |}.

(** ** Strings *)

(** [str.lower()] on a UTF-8 text: the letters of ASCII are lowered and
    the other bytes are left as they are.  The script only looks for
    keywords of ASCII in a lowered text, and no character outside ASCII
    can add to a match: the two whose lower case holds a letter of ASCII,
    U+0130 and U+212A, give an [i] followed by U+0307 and a [k], and no
    keyword ends with [i] or holds a [k]. *)
Definition lower_ascii (c : ascii) : ascii :=
  let n := nat_of_ascii c in
  if ((65 <=? n) && (n <=? 90))%nat then ascii_of_nat (n + 32) else c.

Fixpoint lower (s : string) : string :=
  match s with
  | EmptyString => EmptyString
  | String c s' => String (lower_ascii c) (lower s')
  end.

(** [k in s] on strings. *)
Fixpoint contains (k s : string) : bool :=
  String.prefix k s ||
  match s with
  | EmptyString => false
  | String _ s' => contains k s'
  end.

(** [s.split(sep, 1)[0]] for a one-character separator. *)
Fixpoint before (sep : ascii) (s : string) : string :=
  match s with
  | EmptyString => EmptyString
  | String c s' => if Ascii.eqb c sep then EmptyString else String c (before sep s')
  end.

(** The white space of [str.split()] and [str.strip()], the characters
    for which [str.isspace()] holds.  In ASCII: U+0009 to U+000D, U+001C to
    U+001F and the space. *)
Definition is_space (c : ascii) : bool :=
  let n := nat_of_ascii c in
  (((9 <=? n) && (n <=? 13)) || ((28 <=? n) && (n <=? 32)))%nat.

(** U+0085 and U+00A0, as [C2 85] and [C2 A0]. *)
Definition is_space2 (c1 c2 : ascii) : bool :=
  let n1 := nat_of_ascii c1 in
  let n2 := nat_of_ascii c2 in
  ((n1 =? 194) && ((n2 =? 133) || (n2 =? 160)))%nat.

(** U+1680 ([E1 9A 80]), U+2000 to U+200A ([E2 80 80] to [E2 80 8A]),
    U+2028, U+2029 and U+202F ([E2 80 A8], [E2 80 A9], [E2 80 AF]),
    U+205F ([E2 81 9F]) and U+3000 ([E3 80 80]). *)
Definition is_space3 (c1 c2 c3 : ascii) : bool :=
  let n1 := nat_of_ascii c1 in
  let n2 := nat_of_ascii c2 in
  let n3 := nat_of_ascii c3 in
  (((n1 =? 225) && (n2 =? 154) && (n3 =? 128))
   || ((n1 =? 226) && (n2 =? 128)
       && (((128 <=? n3) && (n3 <=? 138)) || (n3 =? 168) || (n3 =? 169) || (n3 =? 175)))
   || ((n1 =? 226) && (n2 =? 129) && (n3 =? 159))
   || ((n1 =? 227) && (n2 =? 128) && (n3 =? 128)))%nat.

(** What stands behind the white-space character that [s] starts with, if
    it starts with one. *)
Definition after_space (s : string) : option string :=
  match s with
  | EmptyString => None
  | String c1 s1 =>
      if is_space c1 then Some s1
      else
        match s1 with
        | EmptyString => None
        | String c2 s2 =>
            if is_space2 c1 c2 then Some s2
            else
              match s2 with
              | EmptyString => None
              | String c3 s3 => if is_space3 c1 c2 c3 then Some s3 else None
              end
        end
  end.

Definition starts_space (s : string) : bool :=
  match after_space s with Some _ => true | None => false end.

(** [s.lstrip()]. *)
Fixpoint skip_spaces (s : string) : string :=
  match s with
  | EmptyString => EmptyString
  | String c1 s1 =>
      if is_space c1 then skip_spaces s1
      else
        match s1 with
        | EmptyString => s
        | String c2 s2 =>
            if is_space2 c1 c2 then skip_spaces s2
            else
              match s2 with
              | EmptyString => s
              | String c3 s3 => if is_space3 c1 c2 c3 then skip_spaces s3 else s
              end
        end
  end.

(** What stands before the first white-space character. *)
Fixpoint take_word (s : string) : string :=
  match s with
  | EmptyString => EmptyString
  | String c s' => if starts_space s then EmptyString else String c (take_word s')
  end.

(** [s.split(maxsplit=1)[0]]; [None] stands for the [IndexError] of
    indexing the empty list. *)
Definition first_word (s : string) : option string :=
  match skip_spaces s with
  | EmptyString => None
  | t => Some (take_word t)
  end.

(** Truthiness of a [str] and of an [Optional[str]]. *)
Definition nonempty (s : string) : bool :=
  match s with EmptyString => false | _ => true end.

Definition truthy (h : option string) : bool :=
  match h with Some s => nonempty s | None => false end.

(** ** Configuration *)

Definition MAX_TRANSFER_GB : Z := 500.
Definition CACHE_DIR : string := "cache".

(** ** The script *)

Section Program.

Variable E : Env.

(** *** External calls: the event is recorded, the answer is the
    environment's at the history before the call. *)

Definition call_ls (remote_path : string) (max_depth : option Z)
    (args : list string) : M (option (list Entry)) :=
  fun w => Done (rclone_ls E (trace w) remote_path max_depth args)
                {| trace := trace w ++ [ELs remote_path max_depth args];
                   cache := cache w |}.

Definition call_about (remote : string) : M AboutOut :=
  fun w => Done (rclone_about E (trace w) remote)
                {| trace := trace w ++ [EAbout remote]; cache := cache w |}.

Definition call_hashsum (algo remote_path : string) : M ProcOut :=
  fun w => Done (rclone_hashsum E (trace w) algo remote_path)
                {| trace := trace w ++ [EHashsum algo remote_path];
                   cache := cache w |}.

Definition call_copyto (src_path dest_path : string) : M ProcOut :=
  fun w => Done (rclone_copyto E (trace w) src_path dest_path)
                {| trace := trace w ++ [ECopyto src_path dest_path];
                   cache := cache w |}.

Definition call_delete (remote_path : string) : M ProcOut :=
  fun w => Done (rclone_delete E (trace w) remote_path)
                {| trace := trace w ++ [EDelete remote_path]; cache := cache w |}.

(** [datetime.datetime.now()], in microseconds of the local calendar. *)
Definition now : M Z := fun w => Done (clock E (trace w)) w.

Definition sanitize_path (remote_path : string) : string :=
  md5_hexdigest E remote_path.

Definition check_remote_exists (remote_path : string) : M bool :=
  let* _ := log DEBUG (ProbeStart remote_path) in
  let* result := call_ls remote_path (Some 1) [] in
  match result with
  | Some _ =>
      let* _ := log DEBUG (ProbeOk remote_path) in
      ret true
  | None =>
      let* _ := log ERROR (ProbeFailed remote_path) in
      ret false
  end.

(** The name of a snapshot's cache file. *)
Definition snapshot_file (remote_path : string) (is_source : bool)
    (today : string) : string :=
  let wire_path := sanitize_path remote_path in
  let cache_type := if is_source then "source" else "dest" in
  CACHE_DIR +:+ "/" +:+ wire_path +:+ "_" +:+ cache_type +:+ "_" +:+ today +:+ ".json".

Definition not_dir (item : Entry) : bool := negb (default false (IsDir item)).

Definition get_cached_files (remote_path : string) (is_source : bool)
    : M (list Entry) :=
  let* t := now in
  let today := strftime_ymd E t in
  let cache_file := snapshot_file remote_path is_source today in
  let* cached := read_cache cache_file in
  match cached with
  | Some files =>
      let* _ := log INFO (CacheHit cache_file) in
      ret files
  | None =>
      let* ex := check_remote_exists remote_path in
      if negb ex then
        if is_source then
          let* _ := log ERROR (SourceTreeMissing remote_path) in
          ret []
        else
          let* _ := log INFO (DestTreeMissing remote_path) in
          let* _ := write_cache cache_file [] in
          ret []
      else
        let* _ := log INFO (CacheBuild remote_path) in
        let* listing := call_ls remote_path (Some 9999) ["--hash"] in
        match listing with
        | Some items =>
            let files := List.filter not_dir items in
            let* _ := write_cache cache_file files in
            ret files
        | None =>
            let* _ := log ERROR ListingFailed in
            ret []
        end
  end.

Definition get_file_hash (remote_path : string) : M (option string) :=
  let* _ := log DEBUG (HashStart remote_path) in
  let* result := call_hashsum "md5" remote_path in
  match result with
  | Stdout out =>
      if nonempty out then
        match first_word out with
        | Some hash_value =>
            let* _ := log DEBUG (HashValue remote_path hash_value) in
            ret (Some hash_value)
        | None => raise IndexError
        end
      else
        let* _ := log WARNING (HashEmpty remote_path) in
        ret None
  | Failed _ _ =>
      let* _ := log WARNING (HashFailed remote_path) in
      ret None
  end.

Definition keywords : list string :=
  ["quotaExceeded"; "userRateLimitExceeded"; "403"; "429"; "Rate Limit"].

Definition is_quota_exceeded (error_msg : string) : bool :=
  existsb (fun k => contains (lower k) (lower error_msg)) keywords.

Definition run_rclone_copy (src_path dest_path : string) : M (bool * string) :=
  let* result := call_copyto src_path dest_path in
  match result with
  | Stdout out => ret (true, out)
  | Failed returncode stderr =>
      ret (false, "Exit code " +:+ pretty returncode +:+ ": " +:+ stderr)
  end.

Definition delete_file (remote_path : string) : M bool :=
  let* _ := log DEBUG (DeleteStart remote_path) in
  let* result := call_delete remote_path in
  match result with
  | Stdout _ =>
      let* _ := log DEBUG (DeleteOk remote_path) in
      ret true
  | Failed _ _ =>
      let* _ := log WARNING (DeleteFailed remote_path) in
      ret false
  end.

(** The name of a plan's cache file. *)
Definition plan_file (source : string) (today : string) : string :=
  CACHE_DIR +:+ "/" +:+ "sync_list_" +:+ sanitize_path source +:+ "_" +:+ today +:+ ".json".

(** [{f['Path']: f for f in dest_files}]: a later item replaces an earlier
    one with the same path. *)
Definition index_by_path (dest_files : list Entry) : gmap string Entry :=
  foldl (fun d f => <[Path f := f]> d) ∅ dest_files.

Definition md5_or_empty (f : Entry) : string := default EmptyString (md5 f).

(** The loop of [get_files_to_copy]; [files_to_copy] is the list built so
    far. *)
Fixpoint diff_loop (destination : string) (dest_files_dict : gmap string Entry)
    (source_files : list Entry) (files_to_copy : list Entry) : M (list Entry) :=
  match source_files with
  | [] => ret files_to_copy
  | src_file :: rest =>
      let src_path := Path src_file in
      let src_hash := md5_or_empty src_file in
      match dest_files_dict !! src_path with
      | Some dest_file =>
          let dest_hash := md5_or_empty dest_file in
          if nonempty src_hash && nonempty dest_hash
             && negb (String.eqb src_hash dest_hash) then
            let* _ := log INFO (HashDiffers src_path) in
            let* _ := delete_file (destination +:+ "/" +:+ src_path) in
            diff_loop destination dest_files_dict rest (files_to_copy ++ [src_file])
          else
            diff_loop destination dest_files_dict rest files_to_copy
      | None =>
          let* _ := log INFO (MissingAtDest src_path) in
          diff_loop destination dest_files_dict rest (files_to_copy ++ [src_file])
      end
  end.

Definition is_nil {A} (l : list A) : bool :=
  match l with [] => true | _ => false end.

Definition get_files_to_copy (source destination : string) : M (list Entry) :=
  let* t := now in
  let today := strftime_ymd E t in
  let cache_file := plan_file source today in
  let* cached := read_cache cache_file in
  match cached with
  | Some plan =>
      let* _ := log INFO (PlanCacheHit cache_file) in
      ret plan
  | None =>
      let* source_files := get_cached_files source true in
      let* missing :=
        if is_nil source_files
        then (let* ex := check_remote_exists source in ret (negb ex))
        else ret false in
      if missing then
        let* _ := log ERROR (NothingToSync source) in
        ret []
      else
        let* dest_files := get_cached_files destination false in
        let dest_files_dict := index_by_path dest_files in
        let* files_to_copy := diff_loop destination dest_files_dict source_files [] in
        let* _ := write_cache cache_file files_to_copy in
        ret files_to_copy
  end.

Definition extract_remote_name (remote_path : string) : Exn + string :=
  if negb (contains ":" remote_path) then inl ValueError
  else inr (before ":" remote_path).

(** What [get_gdrive_free_space_percent_from_path] returns: a tuple of
    three values on success, a tuple of two in each [except] clause. *)
Inductive CapacityTuple :=
| Tuple3 (success : bool) (percent_free : Q) (free : Z)
| Tuple2 (success : bool) (message : string).

(** *** Binary64

    [free / total] on two [int]s is the quotient rounded once to the
    nearest double, ties to even, and raises [OverflowError] when that is
    no finite double; the product by [100] is rounded again and may be an
    infinity. *)

Definition float_of_int (z : Z) : SpecFloat.spec_float :=
  match z with
  | Z0 => SpecFloat.S754_zero false
  | Zpos p => SpecFloat.S754_finite false p 0
  | Zneg p => SpecFloat.S754_finite true p 0
  end.

Definition true_divide (a b : Z) : SpecFloat.spec_float :=
  SpecFloat.SFdiv 53 1024 (float_of_int a) (float_of_int b).

Definition times_100 (x : SpecFloat.spec_float) : SpecFloat.spec_float :=
  SpecFloat.SFmul 53 1024 x (float_of_int 100).

Definition is_infinite (x : SpecFloat.spec_float) : bool :=
  match x with SpecFloat.S754_infinity _ => true | _ => false end.

(** The rational that a double is.  The script only compares the
    percentage with [2]; an infinity is read as plus or minus [2 ^ 1024],
    the first magnitude that binary64 rounds to it. *)
Definition float_value (x : SpecFloat.spec_float) : Q :=
  match x with
  | SpecFloat.S754_zero _ => 0%Q
  | SpecFloat.S754_nan => 0%Q
  | SpecFloat.S754_infinity s => inject_Z (if s then - 2 ^ 1024 else 2 ^ 1024)
  | SpecFloat.S754_finite s m e =>
      (inject_Z (if s then Zneg m else Zpos m) * Qpower 2 e)%Q
  end.

(** [(free / total) * 100 if total > 0 else 0]. *)
Definition percent_of (free total : Z) : Q :=
  if 0 <? total then float_value (times_100 (true_divide free total)) else 0%Q.

(** [free / total] raises [OverflowError]. *)
Definition division_overflows (free total : Z) : bool :=
  (0 <? total) && is_infinite (true_divide free total).

Definition get_gdrive_free_space_percent_from_path (remote_path : string)
    : M CapacityTuple :=
  match extract_remote_name remote_path with
  | inl _ => ret (Tuple2 false "input string error")
  | inr remote =>
      let* result := call_about (remote +:+ ":") in
      match result with
      | AboutExit stderr => ret (Tuple2 false ("rclone error: " +:+ stderr))
      | AboutBadJson => ret (Tuple2 false "input string error")
      | AboutData Missing _ => ret (Tuple2 false "JSON data error")
      | AboutData NotNumeric _ => ret (Tuple2 false "input string error")
      | AboutData (Num _) Missing => ret (Tuple2 false "JSON data error")
      | AboutData (Num _) NotNumeric => ret (Tuple2 false "input string error")
      | AboutData (Num total) (Num free) =>
          if division_overflows free total then raise OverflowError
          else ret (Tuple3 true (percent_of free total) free)
      end
  end.

(** [success, percent, free_space = ...]: unpacking a tuple of two into
    three names raises [ValueError]. *)
Definition unpack3 (t : CapacityTuple) : M (bool * Q * Z) :=
  match t with
  | Tuple3 success percent free_space => ret (success, percent, free_space)
  | Tuple2 _ _ => raise ValueError
  end.

Definition Qltb (p q : Q) : bool := negb (Qle_bool q p).

(** [total_copied] and [total_size_copied]. *)
Record Budget := {
  total_copied : Z;
  total_size_copied : Z
}.

Definition no_budget : Budget := {| total_copied := 0; total_size_copied := 0 |}.

Definition count_file (file_size : Z) (b : Budget) : Budget :=
  {| total_copied := total_copied b + 1;
     total_size_copied := total_size_copied b + file_size |}.

(** How a loop body ends: [continue] (or falling off its end), or the
    [return] that leaves [sync_files]. *)
Inductive Ctl := Continue | Return.

Definition usec_per_hour : Z := 3600000000.
Definition usec_per_day : Z := 24 * usec_per_hour.

(** [t.replace(hour=23, minute=0, second=0, microsecond=0)]. *)
Definition at_23 (t : Z) : Z := t / usec_per_day * usec_per_day + 23 * usec_per_hour.

Definition hour_of (t : Z) : Z := t `mod` usec_per_day / usec_per_hour.

(** [src_hash and dest_hash and src_hash == dest_hash] on two fresh
    [get_file_hash] readings. *)
Definition hashes_match (src_path dest_path : string) : M bool :=
  let* src_hash := get_file_hash src_path in
  let* dest_hash := get_file_hash dest_path in
  ret (truthy src_hash && truthy dest_hash
       && bool_decide (src_hash = dest_hash)).

(** The body of [for file in files], from the copy on. *)
Definition copy_and_verify (src_path dest_path : string) (file : Entry)
    (file_size : Z) (b : Budget) : M (Budget * Ctl) :=
  let* (success, error_msg) := run_rclone_copy src_path dest_path in
  if success then
    let* ok := hashes_match src_path dest_path in
    if ok then
      let* _ := log INFO (CopyVerified (Path file)) in
      ret (count_file file_size b, Continue)
    else
      let* _ := log ERROR (HashMismatch (Path file)) in
      let* deleted := delete_file dest_path in
      if deleted then
        let* _ := log INFO (DeletedBad (Path file)) in
        let* _ := log INFO (Retrying (Path file)) in
        let* (success, error_msg) := run_rclone_copy src_path dest_path in
        if success then
          let* ok := hashes_match src_path dest_path in
          if ok then
            let* _ := log INFO (RetryVerified (Path file)) in
            ret (count_file file_size b, Continue)
          else
            let* _ := log ERROR (RetryMismatch (Path file)) in
            ret (b, Continue)
        else
          let* _ := log ERROR (RetryFailed (Path file) error_msg) in
          ret (b, Continue)
      else
        let* _ := log WARNING (CannotDeleteBad (Path file)) in
        ret (b, Continue)
  else
    let* _ := log ERROR (CopyFailed (Path file) error_msg) in
    if is_quota_exceeded error_msg then
      let* _ := log ERROR (QuotaStop error_msg) in
      ret (b, Return)
    else
      ret (b, Continue).

(** The body of [for file in files].  [total_size_copied / (1024 ** 3) >=
    MAX_TRANSFER_GB] is a comparison of a double with an [int]; dividing
    by a power of two is exact below 2^53 and rounding is monotone, so it
    is the comparison of integers written here, for every total that has
    a double. *)
Definition sync_file (source destination : string) (free_space stop_time : Z)
    (file : Entry) (b : Budget) : M (Budget * Ctl) :=
  let* current_time := now in
  if stop_time <=? current_time then
    let* _ := log INFO (DeadlineReached current_time) in
    let* _ := log INFO (Finished (total_copied b) (total_size_copied b)) in
    ret (b, Return)
  else
    let* _ := log INFO (SizeSoFar (total_size_copied b)) in
    if MAX_TRANSFER_GB * 1024 ^ 3 <=? total_size_copied b then
      let* _ := log INFO VolumeCap in
      ret (b, Return)
    else
      let src_path := source +:+ "/" +:+ Path file in
      let dest_path := destination +:+ "/" +:+ Path file in
      let file_size := default 0 (Size file) in
      if free_space <? total_size_copied b + file_size then
        let* _ := log ERROR (NoSpaceFor (Path file)) in
        ret (b, Continue)
      else
        let* _ := log INFO (SpaceOk (Path file)) in
        let* listing := call_ls src_path None [] in
        match listing with
        | Some items =>
            if is_nil items then
              let* _ := log ERROR (SourceFileMissing src_path) in
              ret (b, Continue)
            else
              let* _ := log INFO (Copying (Path file)) in
              copy_and_verify src_path dest_path file file_size b
        | None =>
            let* _ := log ERROR (SourceCheckError src_path) in
            ret (b, Continue)
        end.

Fixpoint sync_plan (source destination : string) (free_space stop_time : Z)
    (files : list Entry) (b : Budget) : M (Budget * Ctl) :=
  match files with
  | [] => ret (b, Continue)
  | file :: rest =>
      let* (b', c) := sync_file source destination free_space stop_time file b in
      match c with
      | Continue => sync_plan source destination free_space stop_time rest b'
      | Return => ret (b', Return)
      end
  end.

(** The body of [for transfer in transfers]. *)
Definition sync_pair (stop_time : Z) (transfer : string * string) (b : Budget)
    : M (Budget * Ctl) :=
  let source := transfer.1 in
  let destination := transfer.2 in
  let* t := get_gdrive_free_space_percent_from_path destination in
  let* (success, percent, free_space) := unpack3 t in
  if negb success then
    let* _ := log ERROR (CapacityFailed destination) in
    ret (b, Continue)
  else if Qltb percent 2 then
    let* _ := log ERROR (LowSpace destination) in
    ret (b, Continue)
  else
    let* _ := log INFO (PairStart source destination) in
    let* ex := check_remote_exists source in
    if negb ex then
      let* _ := log ERROR (SourceTreeMissing source) in
      ret (b, Continue)
    else
      let* files := get_files_to_copy source destination in
      if is_nil files then
        let* source_files := get_cached_files source true in
        if is_nil source_files then
          let* _ := log ERROR (CannotList source) in
          ret (b, Continue)
        else
          let* _ := log INFO (AllSynced source) in
          ret (b, Continue)
      else
        let* _ := log INFO (PlanSize source (List.length files)) in
        sync_plan source destination free_space stop_time files b.

Fixpoint sync_pairs (stop_time : Z) (transfers : list (string * string))
    (b : Budget) : M (Budget * Ctl) :=
  match transfers with
  | [] => ret (b, Continue)
  | transfer :: rest =>
      let* (b', c) := sync_pair stop_time transfer b in
      match c with
      | Continue => sync_pairs stop_time rest b'
      | Return => ret (b', Return)
      end
  end.

(** [sync_files], started on the pairs that [parse_transfers] kept; the
    totals are returned so that they can be observed. *)
Definition sync_files (transfers : list (string * string)) : M Budget :=
  let* start := now in
  let stop_time := at_23 start in
  let* _ := log INFO (StopAt stop_time) in
  if is_nil transfers then
    let* _ := log ERROR NoValidPairs in
    ret no_budget
  else
    let* (b, c) := sync_pairs stop_time transfers no_budget in
    match c with
    | Continue =>
        let* _ := log INFO (Finished (total_copied b) (total_size_copied b)) in
        ret b
    | Return => ret b
    end.

End Program.

(** ** Reading traces *)

Definition is_copy (e : Event) : bool :=
  match e with ECopyto _ _ => true | _ => false end.

Definition is_delete (e : Event) : bool :=
  match e with EDelete _ => true | _ => false end.

Definition is_ls (e : Event) : bool :=
  match e with ELs _ _ _ => true | _ => false end.

Definition is_about (e : Event) : bool :=
  match e with EAbout _ => true | _ => false end.

Definition is_error (e : Event) : bool :=
  match e with ELog ERROR _ => true | _ => false end.

Definition copies (tr : list Event) : list Event := List.filter is_copy tr.
Definition deletes (tr : list Event) : list Event := List.filter is_delete tr.
Definition listings (tr : list Event) : list Event := List.filter is_ls tr.
Definition abouts (tr : list Event) : list Event := List.filter is_about tr.
Definition errors (tr : list Event) : list Event := List.filter is_error tr.

Definition no_copy (e : Event) : bool := negb (is_copy e).
Definition no_about (e : Event) : bool := negb (is_about e).
Definition no_delete (e : Event) : bool := negb (is_delete e).

(** A world with a few more events, the cache untouched. *)
Definition after (w : World) (evs : list Event) : World :=
  {| trace := trace w ++ evs; cache := cache w |}.

(** ** A footprint logic for the monad

    [footprint P Q X m]: from any world, [m] only appends events accepted
    by [P]; when it returns, its value satisfies [Q]; when it raises, the
    exception satisfies [X]. *)
Definition footprint {A} (P : Event → bool) (Q : A → Prop) (X : Exn → Prop)
    (m : M A) : Prop :=
  ∀ w, ∃ evs,
    trace (world_of (m w)) = trace w ++ evs ∧
    Forall (fun e => P e = true) evs ∧
    match m w with Done a _ => Q a | Crash e _ => X e end.

Definition anything {A} : A → Prop := fun _ => True.


Definition never (e : Exn) : Prop := False.

(** The one exception of the capacity function: the division. *)
Definition only_overflow (e : Exn) : Prop := e = OverflowError.

(** The test that [diff_loop] makes on a source entry. *)
Definition loop_keeps (dest_files_dict : gmap string Entry) (src_file : Entry) : bool :=
  match dest_files_dict !! Path src_file with
  | Some dest_file =>
      nonempty (md5_or_empty src_file) && nonempty (md5_or_empty dest_file)
      && negb (String.eqb (md5_or_empty src_file) (md5_or_empty dest_file))
  | None => true
  end.

(** The record that [delete_file] logs for an answer of [rclone delete]. *)
Definition delete_report (remote_path : string) (answer : ProcOut) : Event :=
  match answer with
  | Stdout _ => ELog DEBUG (DeleteOk remote_path)
  | Failed _ _ => ELog WARNING (DeleteFailed remote_path)
  end.

Definition succeeded (answer : ProcOut) : bool :=
  match answer with Stdout _ => true | Failed _ _ => false end.

(** The events of [get_file_hash]. *)
Definition hash_event (e : Event) : bool :=
  match e with EHashsum _ _ | ELog _ _ => true | _ => false end.

(** [rclone hashsum] never prints blank output: what it prints is empty or
    holds a word. *)
Definition hash_outputs_ok (E : Env) : Prop :=
  ∀ tr algo p out,
    rclone_hashsum E tr algo p = Stdout out → nonempty out = true →
    first_word out ≠ None.

(** [w'] is [w] after some events, none of them a copy. *)
Definition extends_quietly (w w' : World) : Prop :=
  ∃ evs, trace w' = trace w ++ evs ∧ Forall (fun e => no_copy e = true) evs.

(** ** The plan, in the words of the specification

    [entry_at D p] is the entry of the destination snapshot [D] at path
    [p]; a hash is known when it is present and not empty; the plan keeps,
    in the order of [S], the entries whose path is absent from [D] and
    those whose path is present with both hashes known and unequal. *)

Definition entry_at (D : list Entry) (p : string) : option Entry :=
  List.find (fun d => String.eqb (Path d) p) D.

Definition hash_known (e : Entry) : bool := truthy (md5 e).

Definition in_plan (D : list Entry) (e : Entry) : bool :=
  match entry_at D (Path e) with
  | None => true
  | Some d => hash_known e && hash_known d && negb (bool_decide (md5 e = md5 d))
  end.

Definition plan_of (S D : list Entry) : list Entry := List.filter (in_plan D) S.

(** The retry, in the words of the specification: whenever the first copy
    succeeds and the verification fails, the destination copy is deleted
    once and the copy is made once more. *)
Definition always_retries (E : Env) : Prop :=
  ∀ src_path dest_path file file_size b w out w2,
    rclone_copyto E (trace w) src_path dest_path = Stdout out →
    hashes_match E src_path dest_path (after w [ECopyto src_path dest_path]) = Done false w2 →
    let r := copy_and_verify E src_path dest_path file file_size b w in
    deletes (trace (world_of r)) = deletes (trace w) ++ [EDelete dest_path]
    ∧ copies (trace (world_of r))
      = copies (trace w) ++ [ECopyto src_path dest_path; ECopyto src_path dest_path].

(** The missing destination tree, in the words of the specification: it
    is nothing there yet and no error, so that the request writes no
    record of level ERROR. *)
Definition missing_destination_is_no_error (E : Env) : Prop :=
  ∀ remote_path w evs,
    cache w !! snapshot_file E remote_path false (strftime_ymd E (clock E (trace w))) = None →
    rclone_ls E (trace w ++ [ELog DEBUG (ProbeStart remote_path)]) remote_path (Some 1) []
      = None →
    trace (world_of (get_cached_files E remote_path false w)) = trace w ++ evs →
    errors evs = [].

(** ** Concrete environments

    A small pair of remote trees and a few behaviours of the tool, used to
    run the script on explicit inputs. *)

Definition entry (p : string) (s : Z) (h : string) : Entry :=
  {| Path := p; Size := Some s; IsDir := Some false; md5 := Some h |}.

Definition entry_no_hash (p : string) (s : Z) : Entry :=
  {| Path := p; Size := Some s; IsDir := Some false; md5 := None |}.

Definition src_tree : list Entry :=
  [entry "A" 10 "h1"; entry "B" 20 "h2"; entry "C" 30 "h3"; entry_no_hash "N" 40].

Definition dst_tree : list Entry :=
  [entry "A" 10 "h1"; entry "C" 30 "h9"; entry "N" 40 "h4"].

(** [src:m] and [dst:m] hold the two trees, [alt:m] is an empty tree, the
    files of [src:m] can be listed one by one, nothing else exists. *)
Definition tree_ls (remote_path : string) : option (list Entry) :=
  if String.eqb remote_path "src:m" then Some src_tree
  else if String.eqb remote_path "dst:m" then Some dst_tree
  else if String.eqb remote_path "alt:m" then Some []
  else if String.eqb remote_path "src:m/B" then Some [entry "B" 20 "h2"]
  else if String.eqb remote_path "src:m/C" then Some [entry "C" 30 "h3"]
  else None.

Definition half_free : AboutOut := AboutData (Num 2000) (Num 1000).

Definition noon : Z := 12 * usec_per_hour.
Definition half_past_23 : Z := 23 * usec_per_hour + usec_per_hour / 2.

Definition tool (ls : string → option (list Entry)) (about : AboutOut)
    (hashsum : string → ProcOut) (copyto : list Event → string → ProcOut)
    (delete : ProcOut) (time : Z) : Env :=
  {| rclone_ls := fun _ p _ _ => ls p;
     rclone_about := fun _ _ => about;
     rclone_hashsum := fun _ _ p => hashsum p;
     rclone_copyto := fun tr _ d => copyto tr d;
     rclone_delete := fun _ _ => delete;
     clock := fun _ => time;
     md5_hexdigest := fun s => s;
     strftime_ymd := fun t => pretty (t / usec_per_day) |}.

Definition same_hash (p : string) : ProcOut := Stdout "0f0f  file".

(** The copy lands with a content that differs from the source. *)
Definition corrupt_hash (p : string) : ProcOut :=
  if String.prefix "src:" p then Stdout "aaaa  file" else Stdout "bbbb  file".

(** Only the copies to [dst:m/B] land corrupted. *)
Definition corrupt_B (p : string) : ProcOut :=
  if String.eqb p "dst:m/B" then Stdout "bbbb  file" else Stdout "aaaa  file".

(** The tool ends well and prints nothing. *)
Definition silent : ProcOut := Stdout EmptyString.

Definition copy_ok (tr : list Event) (d : string) : ProcOut := silent.

Definition quota_text : string := "googleapi: Error 403: quotaExceeded".

(** A destination path can be written once; writing it again hits the
    quota. *)
Definition copy_once (tr : list Event) (d : string) : ProcOut :=
  if existsb (fun e => match e with
                       | ECopyto _ d' => String.eqb d d'
                       | _ => false
                       end) tr
  then Failed 1 quota_text
  else silent.

Definition fresh : World := {| trace := []; cache := ∅ |}.

Definition healthy : Env := tool tree_ls half_free same_hash copy_ok silent noon.
Definition undeletable : Env :=
  tool tree_ls half_free corrupt_hash copy_ok (Failed 1 "not allowed") noon.
Definition stubborn : Env := tool tree_ls half_free corrupt_hash copy_ok silent noon.
Definition nearly_full : Env :=
  tool tree_ls (AboutData (Num 1000) (Num 15)) same_hash copy_ok silent noon.
Definition tight : Env :=
  tool tree_ls (AboutData (Num 1000) (Num 25)) same_hash copy_ok silent noon.
Definition unreachable : Env :=
  tool (fun _ => None) half_free same_hash copy_ok silent noon.
Definition late : Env := tool tree_ls half_free same_hash copy_ok silent half_past_23.
Definition throttled : Env := tool tree_ls half_free corrupt_B copy_once silent noon.
Definition about_down : Env :=
  tool tree_ls (AboutExit "connection refused") same_hash copy_ok silent noon.
Definition about_garbled : Env :=
  tool tree_ls (AboutData (Num 2000) Missing) same_hash copy_ok silent noon.

(** The trees of the specification's scenario. *)
Definition scenario_ls (remote_path : string) : option (list Entry) :=
  if String.eqb remote_path "src:s" then Some [entry "A" 10 "h1"; entry "B" 20 "h2"]
  else if String.eqb remote_path "dst:s" then Some [entry "A" 10 "h1"]
  else if String.eqb remote_path "src:s/B" then Some [entry "B" 20 "h2"]
  else None.

Definition scenario : Env :=
  tool scenario_ls (AboutData (Num 2000) (Num 1000)) same_hash copy_ok silent noon.

(** ** The command line: [parse_transfers]

    [transfer.split(',')] must give exactly two parts; both are stripped
    of surrounding white space.  An argument that does not is reported at
    level ERROR and dropped: the second list holds the arguments reported,
    in their order. *)

(** [s.split(sep)] for a one-character separator. *)
Fixpoint split_on (sep : ascii) (s : string) : list string :=
  match s with
  | EmptyString => [EmptyString]
  | String c s' =>
      if Ascii.eqb c sep then EmptyString :: split_on sep s'
      else match split_on sep s' with
           | [] => [String c EmptyString]
           | part :: parts => String c part :: parts
           end
  end.

(** [s.rstrip()]: what stands before the white space that [s] ends
    with.  [s.strip()] is [s.lstrip().rstrip()]. *)
Fixpoint rstrip (s : string) : string :=
  match s with
  | EmptyString => EmptyString
  | String c s' => if nonempty (skip_spaces s) then String c (rstrip s') else EmptyString
  end.

Definition strip (s : string) : string := rstrip (skip_spaces s).

Fixpoint parse_transfers (transfer_args : list string)
    : list (string * string) * list string :=
  match transfer_args with
  | [] => ([], [])
  | transfer :: rest =>
      let (transfers, reported) := parse_transfers rest in
      match split_on "," transfer with
      | [source; destination] =>
          ((strip source, strip destination) :: transfers, reported)
      | _ => (transfers, transfer :: reported)
      end
  end.

(** The number of occurrences of a character. *)
Fixpoint count_char (c : ascii) (s : string) : nat :=
  match s with
  | EmptyString => 0
  | String a s' => (if Ascii.eqb a c then 1 else 0) + count_char c s'
  end.

Fixpoint all_chars (f : ascii → bool) (s : string) : bool :=
  match s with
  | EmptyString => true
  | String a s' => f a && all_chars f s'
  end.

(** A string that neither starts nor ends with white space. *)
Definition trimmed (s : string) : Prop := skip_spaces s = s ∧ rstrip s = s.

(** A sequence of white-space characters, of one, two or three bytes
    each. *)
Inductive spaces : string → Prop :=
| spaces_nil : spaces EmptyString
| spaces_1 c s : is_space c = true → spaces s → spaces (String c s)
| spaces_2 c1 c2 s :
    is_space2 c1 c2 = true → spaces s → spaces (String c1 (String c2 s))
| spaces_3 c1 c2 c3 s :
    is_space3 c1 c2 c3 = true → spaces s → spaces (String c1 (String c2 (String c3 s))).

(** The first byte of a white-space character. *)
Definition lead_byte (c : ascii) : bool :=
  let n := nat_of_ascii c in
  (is_space c || (n =? 194) || (n =? 225) || (n =? 226) || (n =? 227))%nat.

(** No white-space character stands anywhere in [s]. *)
Fixpoint no_space_in (s : string) : bool :=
  match s with
  | EmptyString => true
  | String _ s' => negb (starts_space s) && no_space_in s'
  end.

(** The end of a word: the end of the text or a white-space character. *)
Definition word_end (post : string) : Prop :=
  post = EmptyString ∨ starts_space post = true.

(** A no-break space, U+00A0, and an em space, U+2003. *)
Definition nbsp : string :=
  String (ascii_of_nat 194) (String (ascii_of_nat 160) EmptyString).
Definition em_space : string :=
  String (ascii_of_nat 226) (String (ascii_of_nat 128) (String (ascii_of_nat 131) EmptyString)).

(** [rclone hashsum] separates the hash from the name with an em space. *)
Definition wide_hash (p : string) : ProcOut :=
  Stdout (nbsp +:+ "0f0f" +:+ em_space +:+ "file").

Definition wide : Env := tool tree_ls half_free wide_hash copy_ok silent noon.

(** [rclone hashsum] prints a blank line for every file. *)
Definition blank_hash (p : string) : ProcOut := Stdout "  ".

Definition blank : Env := tool tree_ls half_free blank_hash copy_ok silent noon.

(** What stands behind the first separator. *)
Fixpoint behind (sep : ascii) (s : string) : string :=
  match s with
  | EmptyString => EmptyString
  | String c s' => if Ascii.eqb c sep then s' else behind sep s'
  end.

Definition one_comma (transfer : string) : bool :=
  Nat.eqb (count_char "," transfer) 1.

Definition pair_of (transfer : string) : string * string :=
  (strip (before "," transfer), strip (behind "," transfer)).

(** The tree can be probed but its full listing always fails. *)
Definition flaky : Env :=
  {| rclone_ls := fun _ p d _ =>
       match d with
       | Some 1 => tree_ls p
       | _ => None
       end;
     rclone_about := fun _ _ => half_free;
     rclone_hashsum := fun _ _ p => same_hash p;
     rclone_copyto := fun tr _ d => copy_ok tr d;
     rclone_delete := fun _ _ => silent;
     clock := fun _ => noon;
     md5_hexdigest := fun s => s;
     strftime_ymd := fun t => pretty (t / usec_per_day) |}.

(** A listing with a directory in it. *)
Definition with_dir : Env :=
  tool (fun p => Some [entry "A" 10 "h1";
                       {| Path := "sub"; Size := Some 0; IsDir := Some true; md5 := None |}])
       half_free same_hash copy_ok silent noon.

(** The test of [diff_loop] that sends a deletion. *)
Definition loop_stale (dest_files_dict : gmap string Entry) (src_file : Entry) : bool :=
  match dest_files_dict !! Path src_file with
  | Some dest_file =>
      nonempty (md5_or_empty src_file) && nonempty (md5_or_empty dest_file)
      && negb (String.eqb (md5_or_empty src_file) (md5_or_empty dest_file))
  | None => false
  end.

(** The remote reports a total of zero bytes. *)
Definition no_total : Env :=
  tool tree_ls (AboutData (Num 0) (Num 1000)) same_hash copy_ok silent noon.

(** [m] adds at most [c] copies and [d] deletions to the trace, also when
    it raises. *)
Definition bounded {A} (c d : nat) (m : M A) : Prop :=
  ∀ w, ∃ evs,
    trace (world_of (m w)) = trace w ++ evs
    ∧ (List.length (copies evs) <= c)%nat
    ∧ (List.length (deletes evs) <= d)%nat.

(** The source tree vanished after the plan was made: its files cannot be
    listed any more. *)
Definition vanished_ls (remote_path : string) : option (list Entry) :=
  if String.eqb remote_path "src:m/B" then Some [] else tree_ls remote_path.

Definition vanished : Env := tool vanished_ls half_free same_hash copy_ok silent noon.

(** [p] is a path below the root [root]. *)
Definition under (root p : string) : bool := String.prefix (root +:+ "/") p.

(** What a pair may touch: it deletes below its destination only, and it
    copies from below its source to below its destination. *)
Definition pair_event (source destination : string) (e : Event) : bool :=
  match e with
  | EDelete p => under destination p
  | ECopyto s d => under source s && under destination d
  | _ => true
  end.

(** The source tree is there, the destination tree is not. *)
Definition src_only_ls (remote_path : string) : option (list Entry) :=
  if String.prefix "src:" remote_path then tree_ls remote_path else None.

Definition first_sync : Env := tool src_only_ls half_free same_hash copy_ok silent noon.
(** ** Rules of the footprint logic *)

Section Footprint.

Context {A B : Type} (P : Event → bool) (X : Exn → Prop).

Lemma footprint_ret (Q : A → Prop) (a : A) : Q a → footprint P Q X (ret a).
Proof.
  intros Ha w. exists []. cbn. rewrite app_nil_r. auto.
Qed.

Lemma footprint_raise (Q : A → Prop) (e : Exn) : X e → footprint P Q X (raise e).
Proof.
  intros He w. exists []. cbn. rewrite app_nil_r. auto.
Qed.

Lemma footprint_bind (Q1 : A → Prop) (Q : B → Prop) (m : M A) (k : A → M B) :
  footprint P Q1 X m →
  (∀ a, Q1 a → footprint P Q X (k a)) →
  footprint P Q X (bind m k).
Proof.
  intros Hm Hk w. unfold bind.
  destruct (Hm w) as (evs & Ht & Hall & Hres).
  destruct (m w) as [a w1 | e w1]; cbn in *.
  - destruct (Hk a Hres w1) as (evs' & Ht' & Hall' & Hres').
    exists (evs ++ evs'). rewrite Ht', Ht, app_assoc.
    split; [reflexivity | split; [apply Forall_app; auto | exact Hres']].
  - exists evs. auto.
Qed.

Lemma footprint_weaken (Q Q' : A → Prop) (m : M A) :
  footprint P Q X m → (∀ a, Q a → Q' a) → footprint P Q' X m.
Proof.
  intros Hm HQ w. destruct (Hm w) as (evs & Ht & Hall & Hres).
  exists evs. repeat split; auto. destruct (m w); auto.
Qed.

End Footprint.

Lemma footprint_emit P X (Q : unit → Prop) (e : Event) :
  P e = true → Q tt → footprint P Q X (emit e).
Proof.
  intros He HQ w. exists [e]. cbn. auto.
Qed.

Lemma footprint_log P X (Q : unit → Prop) lvl msg :
  P (ELog lvl msg) = true → Q tt → footprint P Q X (log lvl msg).
Proof. apply footprint_emit. Qed.

Lemma footprint_read_cache P X f : footprint P anything X (read_cache f).
Proof.
  intros w. exists []. cbn. rewrite app_nil_r. unfold anything. auto.
Qed.

Lemma footprint_write_cache P X f c :
  P (ECacheWrite f c) = true → footprint P anything X (write_cache f c).
Proof.
  intros He w. exists [ECacheWrite f c]. cbn. unfold anything. auto.
Qed.

Lemma footprint_now P X E : footprint P anything X (now E).
Proof.
  intros w. exists []. cbn. rewrite app_nil_r. unfold anything. auto.
Qed.

Lemma footprint_call_ls P X E p d a :
  P (ELs p d a) = true → footprint P anything X (call_ls E p d a).
Proof.
  intros He w. exists [ELs p d a]. cbn. unfold anything. auto.
Qed.

Lemma footprint_call_about P X E r :
  P (EAbout r) = true → footprint P anything X (call_about E r).
Proof.
  intros He w. exists [EAbout r]. cbn. unfold anything. auto.
Qed.

Lemma footprint_call_hashsum P X E a p :
  P (EHashsum a p) = true → footprint P anything X (call_hashsum E a p).
Proof.
  intros He w. exists [EHashsum a p]. cbn. unfold anything. auto.
Qed.

Lemma footprint_call_copyto P X E s d :
  P (ECopyto s d) = true → footprint P anything X (call_copyto E s d).
Proof.
  intros He w. exists [ECopyto s d]. cbn. unfold anything. auto.
Qed.

Lemma footprint_call_delete P X E p :
  P (EDelete p) = true → footprint P anything X (call_delete E p).
Proof.
  intros He w. exists [EDelete p]. cbn. unfold anything. auto.
Qed.

(** One step of a footprint proof: split a bind, take a branch, or close a
    leaf. *)
Ltac footprint_leaf :=
  first
    [ apply footprint_ret; first [exact I | reflexivity | done]
    | apply footprint_raise; first [exact I | reflexivity | done]
    | apply footprint_log; [reflexivity | exact I]
    | apply footprint_read_cache
    | apply footprint_now
    | apply footprint_write_cache; reflexivity
    | apply footprint_call_ls; reflexivity
    | apply footprint_call_about; reflexivity
    | apply footprint_call_hashsum; reflexivity
    | apply footprint_call_copyto; reflexivity
    | apply footprint_call_delete; reflexivity ].

Ltac footprint_step :=
  lazymatch goal with
  | |- footprint _ _ _ (bind _ _) =>
      eapply footprint_bind with (Q1 := anything); [ | intros ? _ ]
  | |- footprint _ _ _ (match ?x with _ => _ end) => destruct x eqn:?
  | |- footprint _ _ _ _ => footprint_leaf
  end.

Create HintDb footprints.

Ltac footprint_auto :=
  repeat first
    [ solve [eauto 2 with footprints]
    | footprint_step ].


Lemma footprint_never {A} P (Q : A → Prop) X (m : M A) :
  footprint P Q never m → footprint P Q X m.
Proof.
  intros Hm w. destruct (Hm w) as (evs & Ht & Hall & Hres).
  exists evs. repeat split; auto. destruct (m w); [exact Hres | destruct Hres].
Qed.

Lemma footprint_returns {A} P (Q : A → Prop) (m : M A) w :
  footprint P Q never m → ∃ a w', m w = Done a w'.
Proof.
  intros Hm. destruct (Hm w) as (evs & _ & _ & Hres).
  destruct (m w) as [a w' | e w']; [eauto | destruct Hres].
Qed.

(** ** Footprints of the functions before the copy loop: no copy is
    issued and nothing is raised. *)

Section NoCopy.

Variable E : Env.

Local Abbreviation quiet := (footprint no_copy anything never).

Lemma check_remote_exists_quiet p : quiet (check_remote_exists E p).
Proof. unfold check_remote_exists. footprint_auto. Qed.

Lemma delete_file_quiet p : quiet (delete_file E p).
Proof. unfold delete_file. footprint_auto. Qed.

Hint Resolve check_remote_exists_quiet delete_file_quiet : footprints.

Lemma get_cached_files_quiet p r : quiet (get_cached_files E p r).
Proof. unfold get_cached_files. footprint_auto. Qed.

Lemma diff_loop_quiet dst d S acc : quiet (diff_loop E dst d S acc).
Proof.
  revert acc. induction S as [| f S IH]; intros acc; cbn [diff_loop].
  - footprint_auto.
  - footprint_auto; apply IH.
Qed.

Hint Resolve get_cached_files_quiet diff_loop_quiet : footprints.

Lemma get_files_to_copy_quiet s d : quiet (get_files_to_copy E s d).
Proof. unfold get_files_to_copy. footprint_auto. Qed.

Lemma capacity_quiet p :
  footprint no_copy anything only_overflow
    (get_gdrive_free_space_percent_from_path E p).
Proof. unfold get_gdrive_free_space_percent_from_path. footprint_auto. Qed.

End NoCopy.

(** ** The Diff Engine *)

Lemma bind_done {A B} (m : M A) (k : A → M B) w a w1 :
  m w = Done a w1 → bind m k w = k a w1.
Proof. intros H. unfold bind. rewrite H. reflexivity. Qed.

Lemma bind_crash {A B} (m : M A) (k : A → M B) w e w1 :
  m w = Crash e w1 → bind m k w = Crash e w1.
Proof. intros H. unfold bind. rewrite H. reflexivity. Qed.

Lemma index_by_path_snoc D x :
  index_by_path (D ++ [x]) = <[Path x := x]> (index_by_path D).
Proof. unfold index_by_path. rewrite foldl_app. reflexivity. Qed.

Lemma entry_at_absent D p : ¬ In p (map Path D) → entry_at D p = None.
Proof.
  unfold entry_at.
  induction D as [| d D IH]; cbn [map In List.find]; intros Hn; [reflexivity |].
  destruct (String.eqb_spec (Path d) p) as [Heq | _]; [tauto |].
  apply IH. tauto.
Qed.

Lemma entry_at_snoc D x p :
  entry_at (D ++ [x]) p =
  match entry_at D p with
  | Some d => Some d
  | None => if String.eqb (Path x) p then Some x else None
  end.
Proof.
  unfold entry_at. induction D as [| d D IH]; cbn [app List.find]; [reflexivity |].
  destruct (String.eqb (Path d) p); [reflexivity | exact IH].
Qed.

(** On a snapshot, the dictionary of [get_files_to_copy] is the snapshot
    read by path. *)
Lemma index_by_path_lookup D p :
  List.NoDup (map Path D) → index_by_path D !! p = entry_at D p.
Proof.
  induction D as [| x D IH] using rev_ind; intros Hnd; [reflexivity |].
  rewrite map_app in Hnd. cbn in Hnd.
  apply NoDup_remove in Hnd as [Hnd Hx]. rewrite app_nil_r in Hnd, Hx.
  rewrite index_by_path_snoc, entry_at_snoc, <- (IH Hnd).
  destruct (String.eqb_spec (Path x) p) as [Heq | Hne].
  - subst p. rewrite lookup_insert_eq, (IH Hnd), (entry_at_absent _ _ Hx). reflexivity.
  - rewrite lookup_insert_ne by exact Hne. destruct (index_by_path D !! p); reflexivity.
Qed.

Lemma nonempty_md5_or_empty e : nonempty (md5_or_empty e) = hash_known e.
Proof. unfold md5_or_empty, hash_known. destruct (md5 e); reflexivity. Qed.

Lemma hashes_differ e d :
  hash_known e = true → hash_known d = true →
  negb (String.eqb (md5_or_empty e) (md5_or_empty d)) = negb (bool_decide (md5 e = md5 d)).
Proof.
  unfold hash_known, md5_or_empty. destruct (md5 e) as [a |], (md5 d) as [b |]; cbn; try discriminate.
  intros _ _. f_equal. destruct (String.eqb_spec a b) as [-> | Hne].
  - symmetry. apply bool_decide_eq_true. reflexivity.
  - symmetry. apply bool_decide_eq_false. congruence.
Qed.

(** The test of the loop, read on the snapshot. *)
Lemma loop_test_in_plan e d :
  nonempty (md5_or_empty e) && nonempty (md5_or_empty d)
    && negb (String.eqb (md5_or_empty e) (md5_or_empty d))
  = hash_known e && hash_known d && negb (bool_decide (md5 e = md5 d)).
Proof.
  rewrite !nonempty_md5_or_empty.
  destruct (hash_known e) eqn:He; [| reflexivity].
  destruct (hash_known d) eqn:Hd; [| reflexivity].
  cbn. apply hashes_differ; assumption.
Qed.

(** The loop never raises and returns what it had, followed by the
    entries of the source that the specification keeps. *)
Lemma diff_loop_value E destination D S :
  List.NoDup (map Path D) →
  ∀ acc w, value_of (diff_loop E destination (index_by_path D) S acc w)
           = Some (acc ++ plan_of S D).
Proof.
  intros Hnd. induction S as [| e S IH]; intros acc w; cbn [diff_loop].
  - cbn. rewrite app_nil_r. reflexivity.
  - unfold plan_of. cbn [List.filter]. unfold in_plan at 1.
    rewrite (index_by_path_lookup D (Path e) Hnd).
    destruct (entry_at D (Path e)) as [d |].
    + rewrite loop_test_in_plan.
      destruct (hash_known e && hash_known d && negb (bool_decide (md5 e = md5 d))).
      * unfold bind at 1. cbn. unfold bind at 1.
        destruct (delete_file E _ _) as [b w1 | ex w1] eqn:Hdel.
        -- rewrite IH. rewrite <- app_assoc. reflexivity.
        -- destruct (footprint_returns _ _ _
                       (after w [ELog INFO (HashDiffers (Path e))])
                       (delete_file_quiet E (destination +:+ "/" +:+ Path e)))
             as (? & ? & Hret).
           unfold after in Hret. congruence.
      * apply IH.
    + unfold bind at 1. cbn. rewrite IH, <- app_assoc. reflexivity.
Qed.

Lemma in_plan_unknown D e d :
  List.NoDup (map Path D) → In d D → Path d = Path e →
  hash_known e = false ∨ hash_known d = false → in_plan D e = false.
Proof.
  intros Hnd Hin Hp Hun. unfold in_plan.
  assert (entry_at D (Path e) = Some d) as ->.
  { clear Hun. induction D as [| x D IH]; [destruct Hin |].
    cbn in Hnd. apply NoDup_cons_iff in Hnd as [Hx Hnd].
    cbn. destruct Hin as [-> | Hin].
    - rewrite Hp, String.eqb_refl. reflexivity.
    - destruct (String.eqb_spec (Path x) (Path e)) as [Heq | _].
      + exfalso. apply Hx. rewrite Heq, <- Hp. apply in_map. exact Hin.
      + apply IH; assumption. }
  destruct Hun as [-> | ->]; [reflexivity |].
  destruct (hash_known e); reflexivity.
Qed.

(** C4. When no plan is cached, the plan that [get_files_to_copy] computes
    from the source snapshot [S] and the destination snapshot [D] is
    exactly the entries of [S] whose path is absent from [D] together with
    those whose path is in [D] with both hashes known and unequal, in the
    order of [S]; an entry of [S] present in [D] with either hash unknown
    is not in the plan. *)
Theorem plan_is_diff E source destination w S w1 D w2 :
  cache w !! plan_file E source (strftime_ymd E (clock E (trace w))) = None →
  get_cached_files E source true w = Done S w1 →
  (S ≠ [] → get_cached_files E destination false w1 = Done D w2) →
  List.NoDup (map Path D) →
  value_of (get_files_to_copy E source destination w) = Some (plan_of S D) ∧
  ∀ e d, In d D → Path d = Path e →
         hash_known e = false ∨ hash_known d = false → ¬ In e (plan_of S D).
Proof.
  intros Hmiss HS HD Hnd. split.
  - unfold get_files_to_copy.
    unfold bind at 1. cbn [now]. unfold bind at 1. cbn [read_cache]. rewrite Hmiss.
    rewrite (bind_done _ _ _ _ _ HS).
    destruct S as [| e S].
    + cbn [is_nil plan_of List.filter].
      unfold bind at 1. unfold bind at 1.
      destruct (check_remote_exists E source w1) as [ex w3 | x w3] eqn:Hex.
      * cbn [ret]. destruct ex; cbn [negb].
        -- unfold bind at 1.
           destruct (footprint_returns _ _ _ w3 (get_cached_files_quiet E destination false))
             as (D' & w4 & ->).
           reflexivity.
        -- reflexivity.
      * destruct (footprint_returns _ _ _ w1 (check_remote_exists_quiet E source))
          as (? & ? & Hret).
        congruence.
    + cbn [is_nil]. unfold bind at 1. cbn [ret].
      rewrite (bind_done _ _ _ _ _ (HD ltac:(discriminate))).
      unfold bind at 1.
      pose proof (diff_loop_value E destination D (e :: S) Hnd [] w2) as Hv.
      destruct (diff_loop E destination (index_by_path D) (e :: S) [] w2); cbn in Hv |- *;
        [exact Hv | discriminate].
  - intros e d Hin Hp Hun Hplan. unfold plan_of in Hplan.
    apply filter_In in Hplan as [_ Hplan].
    rewrite (in_plan_unknown D e d Hnd Hin Hp Hun) in Hplan. discriminate.
Qed.

(** What [delete_file] does, whatever the tool answers. *)
Lemma delete_file_run E remote_path w :
  delete_file E remote_path w
  = Done (succeeded (rclone_delete E (trace w ++ [ELog DEBUG (DeleteStart remote_path)]) remote_path))
         (after w [ELog DEBUG (DeleteStart remote_path); EDelete remote_path;
                   delete_report remote_path
                     (rclone_delete E (trace w ++ [ELog DEBUG (DeleteStart remote_path)]) remote_path)]).
Proof.
  unfold delete_file, bind, log, emit, call_delete, after. cbn.
  destruct (rclone_delete E _ _); cbn; rewrite <- !app_assoc; reflexivity.
Qed.

(** The loop only ever extends the list it was given. *)
Lemma diff_loop_extends E destination dict S :
  ∀ acc w, value_of (diff_loop E destination dict S acc w)
           = Some (acc ++ List.filter (loop_keeps dict) S).
Proof.
  induction S as [| e S IH]; intros acc w; cbn [diff_loop List.filter].
  - cbn. rewrite app_nil_r. reflexivity.
  - unfold loop_keeps at 1. destruct (dict !! Path e) as [d |].
    + destruct (nonempty (md5_or_empty e) && nonempty (md5_or_empty d)
                && negb (String.eqb (md5_or_empty e) (md5_or_empty d))).
      * unfold bind at 1. cbn [log emit]. rewrite (bind_done _ _ _ _ _ (delete_file_run E _ _)).
        rewrite IH, <- app_assoc. reflexivity.
      * apply IH.
    + unfold bind at 1. cbn [log emit]. rewrite IH, <- app_assoc. reflexivity.
Qed.

(** C10. A source entry whose path is in the destination with both hashes
    known and unequal is appended to the plan whatever [rclone delete]
    answers for the stale destination file: the loop goes on with the
    longer list, the answer only decides which record is logged (a
    warning when the deletion failed), and the entry is in the plan that
    the loop returns. *)
Theorem stale_entry_planned E destination dict src_file dest_file rest acc w :
  dict !! Path src_file = Some dest_file →
  hash_known src_file = true →
  hash_known dest_file = true →
  md5 src_file ≠ md5 dest_file →
  let target := destination +:+ "/" +:+ Path src_file in
  let answer :=
    rclone_delete E (trace w ++ [ELog INFO (HashDiffers (Path src_file));
                                 ELog DEBUG (DeleteStart target)]) target in
  diff_loop E destination dict (src_file :: rest) acc w
  = diff_loop E destination dict rest (acc ++ [src_file])
      (after w [ELog INFO (HashDiffers (Path src_file));
                ELog DEBUG (DeleteStart target); EDelete target;
                delete_report target answer])
  ∧ ∃ plan, value_of (diff_loop E destination dict (src_file :: rest) acc w) = Some plan
            ∧ In src_file plan.
Proof.
  intros Hd Hs Hk Hne target answer.
  assert (Htest : nonempty (md5_or_empty src_file) && nonempty (md5_or_empty dest_file)
                  && negb (String.eqb (md5_or_empty src_file) (md5_or_empty dest_file)) = true).
  { rewrite loop_test_in_plan, Hs, Hk. cbn. apply negb_true_iff.
    apply bool_decide_eq_false. exact Hne. }
  assert (Hstep : diff_loop E destination dict (src_file :: rest) acc w
    = diff_loop E destination dict rest (acc ++ [src_file])
        (after w [ELog INFO (HashDiffers (Path src_file));
                  ELog DEBUG (DeleteStart target); EDelete target;
                  delete_report target answer])).
  { cbn [diff_loop]. rewrite Hd, Htest.
    unfold bind at 1. cbn [log emit].
    rewrite (bind_done _ _ _ _ _ (delete_file_run E _ _)).
    unfold after. cbn [trace cache]. rewrite <- !app_assoc. reflexivity. }
  split; [exact Hstep |].
  rewrite Hstep, diff_loop_extends.
  eexists. split; [reflexivity |].
  apply in_or_app. left. apply in_or_app. right. left. reflexivity.
Qed.

(** The entry [C] of the example trees is stale at the destination, and
    the tool refuses to delete it. *)
Lemma stale_entry_planned_witness :
  ∃ plan, value_of (diff_loop undeletable "dst:m" (index_by_path dst_tree)
                      [entry "C" 30 "h3"] [] fresh) = Some plan
          ∧ In (entry "C" 30 "h3") plan.
Proof.
  apply (stale_entry_planned undeletable "dst:m" (index_by_path dst_tree)
           (entry "C" 30 "h3") (entry "C" 30 "h9") [] [] fresh).
  - vm_compute. reflexivity.
  - reflexivity.
  - reflexivity.
  - discriminate.
Defined.

Lemma plan_is_diff_witness :
  value_of (get_files_to_copy healthy "src:m" "dst:m" fresh)
  = Some (plan_of src_tree dst_tree).
Proof.
  eapply (plan_is_diff healthy "src:m" "dst:m" fresh src_tree _ dst_tree).
  - vm_compute. reflexivity.
  - vm_compute. reflexivity.
  - intros _. vm_compute. reflexivity.
  - repeat constructor; cbn; intuition discriminate.
Defined.

(** ** The Snapshot Cache *)

(** What the existence probe does when the listing fails. *)
Lemma check_remote_exists_fails E remote_path w :
  rclone_ls E (trace w ++ [ELog DEBUG (ProbeStart remote_path)]) remote_path (Some 1) [] = None →
  check_remote_exists E remote_path w
  = Done false (after w [ELog DEBUG (ProbeStart remote_path);
                         ELs remote_path (Some 1) [];
                         ELog ERROR (ProbeFailed remote_path)]).
Proof.
  intros Hls. unfold check_remote_exists, bind, log, emit, call_ls, after. cbn.
  rewrite Hls. cbn. rewrite <- !app_assoc. reflexivity.
Qed.

Lemma check_remote_exists_ok E remote_path w items :
  rclone_ls E (trace w ++ [ELog DEBUG (ProbeStart remote_path)]) remote_path (Some 1) []
    = Some items →
  check_remote_exists E remote_path w
  = Done true (after w [ELog DEBUG (ProbeStart remote_path); ELs remote_path (Some 1) [];
                        ELog DEBUG (ProbeOk remote_path)]).
Proof.
  intros Hls. unfold check_remote_exists, bind, log, emit, call_ls, after. cbn.
  rewrite Hls. cbn. rewrite <- !app_assoc. reflexivity.
Qed.

(** C7. A snapshot is requested, no artifact of the day is cached for it
    and the existence probe fails.  For the source role the empty snapshot
    is returned, the cache is left as it was and two records of level
    ERROR are written, the one of the probe and the one of
    [get_cached_files].  For the destination role the empty snapshot is
    written to the cache and returned and [get_cached_files] reports the
    condition at level INFO; the record of level ERROR that the probe
    writes is there all the same, and it is the only one. *)
Theorem missing_tree_snapshot E remote_path is_source w :
  let cache_file :=
    snapshot_file E remote_path is_source (strftime_ymd E (clock E (trace w))) in
  let probe := [ELog DEBUG (ProbeStart remote_path); ELs remote_path (Some 1) [];
                ELog ERROR (ProbeFailed remote_path)] in
  let added :=
    if is_source
    then probe ++ [ELog ERROR (SourceTreeMissing remote_path)]
    else probe ++ [ELog INFO (DestTreeMissing remote_path); ECacheWrite cache_file []] in
  cache w !! cache_file = None →
  rclone_ls E (trace w ++ [ELog DEBUG (ProbeStart remote_path)]) remote_path (Some 1) [] = None →
  get_cached_files E remote_path is_source w
  = Done []
      {| trace := trace w ++ added;
         cache := if is_source then cache w else <[cache_file := []]> (cache w) |}
  ∧ errors added
    = if is_source
      then [ELog ERROR (ProbeFailed remote_path); ELog ERROR (SourceTreeMissing remote_path)]
      else [ELog ERROR (ProbeFailed remote_path)].
Proof.
  intros cache_file probe added Hmiss Hls. split.
  - unfold get_cached_files.
    unfold bind at 1. cbn [now]. unfold bind at 1. cbn [read_cache].
    fold cache_file. rewrite Hmiss.
    rewrite (bind_done _ _ _ _ _ (check_remote_exists_fails E remote_path w Hls)).
    cbn [negb]. subst added. destruct is_source.
    + unfold bind, log, emit, ret, after. cbn. rewrite <- !app_assoc. reflexivity.
    + unfold bind, log, emit, write_cache, ret, after. cbn. rewrite <- !app_assoc. reflexivity.
  - subst added probe. destruct is_source; reflexivity.
Qed.

Lemma missing_tree_snapshot_witness :
  value_of (get_cached_files unreachable "dst:m" false fresh) = Some []
  ∧ cache (world_of (get_cached_files unreachable "dst:m" false fresh))
      !! snapshot_file unreachable "dst:m" false (strftime_ymd unreachable noon) = Some []
  ∧ errors (trace (world_of (get_cached_files unreachable "dst:m" false fresh)))
    = [ELog ERROR (ProbeFailed "dst:m")]
  ∧ cache (world_of (get_cached_files unreachable "src:m" true fresh)) = ∅.
Proof.
  destruct (missing_tree_snapshot unreachable "dst:m" false fresh) as [Hdst Herr];
    [vm_compute; reflexivity | reflexivity |].
  destruct (missing_tree_snapshot unreachable "src:m" true fresh) as [Hsrc _];
    [vm_compute; reflexivity | reflexivity |].
  rewrite Hdst, Hsrc. cbn [value_of world_of cache trace fresh app].
  split; [reflexivity |]. split; [apply lookup_insert_eq |].
  split; [exact Herr | reflexivity].
Defined.

(** The request for a destination tree that does not answer the probe does
    write a record of level ERROR, the one of the probe. *)
Lemma missing_destination_logs_error : ¬ missing_destination_is_no_error unreachable.
Proof.
  intros H.
  specialize (H "dst:m" fresh
                [ELog DEBUG (ProbeStart "dst:m"); ELs "dst:m" (Some 1) [];
                 ELog ERROR (ProbeFailed "dst:m"); ELog INFO (DestTreeMissing "dst:m");
                 ECacheWrite (snapshot_file unreachable "dst:m" false
                                (strftime_ymd unreachable noon)) []]).
  assert (Hno : errors [ELog DEBUG (ProbeStart "dst:m"); ELs "dst:m" (Some 1) [];
                 ELog ERROR (ProbeFailed "dst:m"); ELog INFO (DestTreeMissing "dst:m");
                 ECacheWrite (snapshot_file unreachable "dst:m" false
                                (strftime_ymd unreachable noon)) []] = []).
  { apply H; vm_compute; reflexivity. }
  discriminate Hno.
Qed.

(** ** The Capacity Monitor *)

Lemma Qltb_lt p q : Qltb p q = true ↔ (p < q)%Q.
Proof.
  unfold Qltb. rewrite negb_true_iff. split.
  - intros H. apply Qnot_le_lt. intros Hle. apply Qle_bool_iff in Hle. congruence.
  - intros H. destruct (Qle_bool q p) eqn:Hb; [| reflexivity].
    apply Qle_bool_iff in Hb. exfalso. exact (Qlt_not_le _ _ H Hb).
Qed.

(** What the capacity query does when [rclone about] gives both numbers
    and the quotient is a double. *)
Lemma capacity_reading E destination w total free :
  contains ":" destination = true →
  rclone_about E (trace w) (before ":" destination +:+ ":")
    = AboutData (Num total) (Num free) →
  division_overflows free total = false →
  get_gdrive_free_space_percent_from_path E destination w
  = Done (Tuple3 true (percent_of free total) free)
         (after w [EAbout (before ":" destination +:+ ":")]).
Proof.
  intros Hcolon Habout Hdiv.
  unfold get_gdrive_free_space_percent_from_path, extract_remote_name.
  rewrite Hcolon. cbn [negb]. unfold bind, call_about. rewrite Habout, Hdiv.
  reflexivity.
Qed.

(** C8. When the capacity reading of the destination succeeds and its
    free-space percentage is below 2, the pair is left at once: the body of
    the loop over the pairs only adds the record of the skip to what the
    capacity query did, which is one [rclone about] call, and no listing
    call at all is made for the pair. *)
Theorem low_space_skips_pair E stop_time source destination b w percent free_space w1 :
  get_gdrive_free_space_percent_from_path E destination w
    = Done (Tuple3 true percent free_space) w1 →
  (percent < 2)%Q →
  sync_pair E stop_time (source, destination) b w
    = Done (b, Continue) (after w1 [ELog ERROR (LowSpace destination)])
  ∧ trace w1 = trace w ++ [EAbout (before ":" destination +:+ ":")]
  ∧ listings (trace w1 ++ [ELog ERROR (LowSpace destination)]) = listings (trace w).
Proof.
  intros Hcap Hlow.
  assert (Hw1 : trace w1 = trace w ++ [EAbout (before ":" destination +:+ ":")]).
  { revert Hcap. unfold get_gdrive_free_space_percent_from_path.
    destruct (extract_remote_name destination) as [x | remote] eqn:Hname;
      [cbn; discriminate |].
    assert (remote = before ":" destination) as ->.
    { revert Hname. unfold extract_remote_name.
      destruct (negb (contains ":" destination)); congruence. }
    unfold bind, call_about, ret.
    destruct (rclone_about E _ _) as [? | | [| | total] [| | free]];
      try destruct (division_overflows free total);
      intros H; inversion H; reflexivity. }
  split; [| split; [exact Hw1 |]].
  - unfold sync_pair. cbn [fst snd].
    rewrite (bind_done _ _ _ _ _ Hcap). unfold bind at 1. cbn [unpack3 ret negb].
    apply Qltb_lt in Hlow. rewrite Hlow.
    unfold bind, log, emit, ret, after. reflexivity.
  - rewrite Hw1. unfold listings. rewrite !List.filter_app. cbn. rewrite !app_nil_r. reflexivity.
Qed.

Lemma low_space_skips_pair_witness :
  sync_pair nearly_full noon ("src:m", "dst:m") no_budget fresh
  = Done (no_budget, Continue)
         {| trace := [EAbout "dst:"; ELog ERROR (LowSpace "dst:m")]; cache := ∅ |}.
Proof.
  apply (low_space_skips_pair nearly_full noon "src:m" "dst:m" no_budget fresh
           (percent_of 15 1000) 15 {| trace := [EAbout "dst:"]; cache := ∅ |}).
  - vm_compute. reflexivity.
  - vm_compute. reflexivity.
Defined.

(** ** The loop over the files of a plan *)

(** Nothing in the loop asks the destination for its capacity again. *)
Section NoAbout.

Variable E : Env.

Local Abbreviation local := (footprint no_about anything anything).

Lemma check_remote_exists_local p : local (check_remote_exists E p).
Proof. unfold check_remote_exists. footprint_auto. Qed.

Hint Resolve check_remote_exists_local : footprints.

Lemma get_cached_files_local p r : local (get_cached_files E p r).
Proof. unfold get_cached_files. footprint_auto. Qed.

Lemma get_file_hash_local p : local (get_file_hash E p).
Proof. unfold get_file_hash. footprint_auto. Qed.

Hint Resolve get_file_hash_local : footprints.

Lemma hashes_match_local s d : local (hashes_match E s d).
Proof. unfold hashes_match. footprint_auto. Qed.

Lemma run_rclone_copy_local s d : local (run_rclone_copy E s d).
Proof. unfold run_rclone_copy. footprint_auto. Qed.

Lemma delete_file_local p : local (delete_file E p).
Proof. unfold delete_file. footprint_auto. Qed.

Hint Resolve hashes_match_local run_rclone_copy_local delete_file_local : footprints.

Lemma diff_loop_local dst d S : ∀ acc, local (diff_loop E dst d S acc).
Proof.
  induction S as [| f S IH]; intros acc; cbn [diff_loop].
  - footprint_auto.
  - footprint_auto; apply IH.
Qed.

Hint Resolve get_cached_files_local diff_loop_local : footprints.

Lemma get_files_to_copy_local s d : local (get_files_to_copy E s d).
Proof. unfold get_files_to_copy. footprint_auto. Qed.

Lemma copy_and_verify_local s d f n b : local (copy_and_verify E s d f n b).
Proof. unfold copy_and_verify. footprint_auto. Qed.

Hint Resolve copy_and_verify_local : footprints.

Lemma sync_file_local s d free stop f b : local (sync_file E s d free stop f b).
Proof. unfold sync_file. footprint_auto. Qed.

Lemma sync_plan_local s d free stop files :
  ∀ b, local (sync_plan E s d free stop files b).
Proof.
  induction files as [| f files IH]; intros b; cbn [sync_plan].
  - footprint_auto.
  - eapply footprint_bind with (Q1 := anything); [apply sync_file_local |].
    intros [b' c] _. destruct c; [apply IH | footprint_auto].
Qed.

End NoAbout.

Lemma footprint_filter_none {A} P Q X (m : M A) (f : Event → bool) w :
  footprint P Q X m →
  (∀ e, P e = true → f e = false) →
  List.filter f (trace (world_of (m w))) = List.filter f (trace w).
Proof.
  intros Hm Hf. destruct (Hm w) as (evs & -> & Hall & _).
  rewrite List.filter_app.
  assert (List.filter f evs = []) as ->; [| apply app_nil_r].
  induction Hall as [| e evs He _ IH]; [reflexivity |].
  cbn. rewrite (Hf e He). exact IH.
Qed.

(** The loop over a plan, cut in two. *)
Lemma sync_plan_app E source destination free_space stop_time done rest :
  ∀ b0 w0 b w,
    sync_plan E source destination free_space stop_time done b0 w0 = Done (b, Continue) w →
    sync_plan E source destination free_space stop_time (done ++ rest) b0 w0
    = sync_plan E source destination free_space stop_time rest b w.
Proof.
  induction done as [| f done IH]; intros b0 w0 b w Hdone; cbn [sync_plan app] in *.
  - unfold ret in Hdone. injection Hdone as -> ->. reflexivity.
  - unfold bind at 1 in Hdone. unfold bind at 1.
    destruct (sync_file E source destination free_space stop_time f b0 w0)
      as [[b1 [|]] w1 | e w1]; [| discriminate Hdone | discriminate Hdone].
    apply IH. exact Hdone.
Qed.

Lemma abouts_kept {A} (m : M A) w :
  footprint no_about anything anything m →
  abouts (trace (world_of (m w))) = abouts (trace w).
Proof.
  intros Hm. unfold abouts. apply (footprint_filter_none _ _ _ _ _ _ Hm).
  intros e. unfold no_about. destruct (is_about e); [discriminate | reflexivity].
Qed.

(** C6. The free-byte reading of a pair is the number that the one
    [rclone about] call at the start of the pair reports.  The plan of the
    pair is run up to a planned file, which is reached before the deadline
    and below the volume cap, and the bytes copied so far plus its size
    exceed that reading.  The file is skipped: only two log records are
    added, so nothing is copied for it, and the work on the pair goes on
    with the rest of the plan, with the same reading.  The capacity is not
    asked for again: the [rclone about] call at the start is the only one
    of the pair. *)
Theorem no_space_skips_file E stop_time source destination b0 w0
    total free items plan w4 done file rest b w :
  let remote := before ":" destination +:+ ":" in
  let w2 := after w0 [EAbout remote; ELog INFO (PairStart source destination)] in
  let w3 := after w2 [ELog DEBUG (ProbeStart source); ELs source (Some 1) [];
                      ELog DEBUG (ProbeOk source)] in
  let w5 := after w4 [ELog INFO (PlanSize source (List.length plan))] in
  let w' := after w [ELog INFO (SizeSoFar (total_size_copied b));
                     ELog ERROR (NoSpaceFor (Path file))] in
  contains ":" destination = true →
  rclone_about E (trace w0) remote = AboutData (Num total) (Num free) →
  division_overflows free total = false →
  ¬ (percent_of free total < 2)%Q →
  rclone_ls E (trace w2 ++ [ELog DEBUG (ProbeStart source)]) source (Some 1) [] = Some items →
  get_files_to_copy E source destination w3 = Done plan w4 →
  plan = done ++ file :: rest →
  sync_plan E source destination free stop_time done b0 w5 = Done (b, Continue) w →
  clock E (trace w) < stop_time →
  total_size_copied b < MAX_TRANSFER_GB * 1024 ^ 3 →
  total_size_copied b + default 0 (Size file) > free →
  sync_file E source destination free stop_time file b w = Done (b, Continue) w'
  ∧ copies (trace w') = copies (trace w)
  ∧ sync_pair E stop_time (source, destination) b0 w0
    = sync_plan E source destination free stop_time rest b w'
  ∧ abouts (trace (world_of (sync_pair E stop_time (source, destination) b0 w0)))
    = abouts (trace w0) ++ [EAbout remote].
Proof.
  intros remote w2 w3 w5 w' Hcolon Habout Hdiv Hpct Hls Hplan Hcut Hdone
         Htime Hcap Hspace.
  assert (Hfile : sync_file E source destination free stop_time file b w
                  = Done (b, Continue) w').
  { unfold sync_file. unfold bind at 1. cbn [now].
    destruct (Z.leb_spec stop_time (clock E (trace w))) as [Hle | _]; [lia |].
    unfold bind at 1. cbn [log emit].
    destruct (Z.leb_spec (MAX_TRANSFER_GB * 1024 ^ 3) (total_size_copied b)) as [Hle | _]; [lia |].
    destruct (Z.ltb_spec free (total_size_copied b + default 0 (Size file))) as [_ | Hge]; [| lia].
    unfold bind, log, emit, ret. cbn. subst w'. unfold after. cbn.
    rewrite <- !app_assoc. reflexivity. }
  assert (Hpair : sync_pair E stop_time (source, destination) b0 w0
                  = sync_plan E source destination free stop_time rest b w').
  { unfold sync_pair. cbn [fst snd].
    rewrite (bind_done _ _ _ _ _ (capacity_reading E destination w0 total free Hcolon Habout Hdiv)).
    unfold bind at 1. cbn [unpack3 ret negb].
    assert (Qltb (percent_of free total) 2 = false) as ->.
    { destruct (Qltb (percent_of free total) 2) eqn:Hq; [| reflexivity].
      apply Qltb_lt in Hq. contradiction. }
    unfold bind at 1. cbn [log emit].
    assert (Hex : check_remote_exists E source
              {| trace := trace (after w0 [EAbout remote])
                          ++ [ELog INFO (PairStart source destination)];
                 cache := cache (after w0 [EAbout remote]) |} = Done true w3).
    { change (Done true w3)
        with (Done true (after w2 [ELog DEBUG (ProbeStart source); ELs source (Some 1) [];
                                  ELog DEBUG (ProbeOk source)])).
      rewrite <- (check_remote_exists_ok E source w2 items Hls). f_equal.
      unfold w2, after. cbn [trace cache]. rewrite <- app_assoc. reflexivity. }
    rewrite (bind_done _ _ _ _ _ Hex). cbn [negb].
    rewrite (bind_done _ _ _ _ _ Hplan).
    assert (is_nil plan = false) as -> by (rewrite Hcut; destruct done; reflexivity).
    unfold bind at 1. cbn [log emit].
    change {| trace := trace w4 ++ [ELog INFO (PlanSize source (List.length plan))];
              cache := cache w4 |} with w5.
    rewrite Hcut. rewrite (sync_plan_app _ _ _ _ _ _ _ _ _ _ _ Hdone).
    cbn [sync_plan]. rewrite (bind_done _ _ _ _ _ Hfile). reflexivity. }
  split; [exact Hfile |]. split; [| split; [exact Hpair |]].
  - subst w'. unfold copies, after. cbn [trace]. rewrite List.filter_app. cbn.
    apply app_nil_r.
  - rewrite Hpair. rewrite (abouts_kept _ _ (sync_plan_local E _ _ _ _ rest b)).
    assert (Hw : abouts (trace w) = abouts (trace w5)).
    { rewrite <- (abouts_kept _ w5 (sync_plan_local E source destination free stop_time done b0)).
      rewrite Hdone. reflexivity. }
    assert (Hw4 : abouts (trace w4) = abouts (trace w3)).
    { rewrite <- (abouts_kept _ w3 (get_files_to_copy_local E source destination)).
      rewrite Hplan. reflexivity. }
    unfold w', after, abouts. cbn [trace]. rewrite List.filter_app. cbn [List.filter is_about].
    rewrite app_nil_r. fold (abouts (trace w)). rewrite Hw.
    unfold w5, after, abouts. cbn [trace]. rewrite List.filter_app. cbn [List.filter is_about].
    rewrite app_nil_r. fold (abouts (trace w4)). rewrite Hw4.
    unfold w3, w2, after, abouts. cbn [trace]. rewrite !List.filter_app. cbn.
    rewrite app_nil_r. reflexivity.
Qed.

(** The destination has 25 bytes free: [B] (20 bytes) is copied, [C] (30
    bytes) is skipped, and the capacity was asked for once. *)
Lemma no_space_skips_file_witness :
  let r := sync_pair tight (at_23 noon) ("src:m", "dst:m") no_budget fresh in
  value_of r = Some ({| total_copied := 1; total_size_copied := 20 |}, Continue)
  ∧ copies (trace (world_of r)) = [ECopyto "src:m/B" "dst:m/B"]
  ∧ errors (trace (world_of r)) = [ELog ERROR (NoSpaceFor "C")]
  ∧ abouts (trace (world_of r)) = [EAbout "dst:"].
Proof.
  epose proof (no_space_skips_file tight (at_23 noon) "src:m" "dst:m" no_budget fresh
                 1000 25 _ _ _ [entry "B" 20 "h2"] (entry "C" 30 "h3") []
                 {| total_copied := 1; total_size_copied := 20 |} _) as Hskip.
  cbv zeta in Hskip. destruct Hskip as (_ & _ & Hpair & Habouts).
  - reflexivity.
  - reflexivity.
  - vm_compute. reflexivity.
  - intros H. vm_compute in H. discriminate H.
  - vm_compute. reflexivity.
  - vm_compute. reflexivity.
  - reflexivity.
  - vm_compute. reflexivity.
  - vm_compute. reflexivity.
  - reflexivity.
  - reflexivity.
  - cbv zeta. rewrite Habouts. rewrite Hpair.
    split; [reflexivity |]. split; [vm_compute; reflexivity |].
    split; [vm_compute; reflexivity | reflexivity].
Defined.

(** ** Verification and the single retry *)

Section Hashing.

Variable E : Env.

Lemma get_file_hash_events p : footprint hash_event anything anything (get_file_hash E p).
Proof. unfold get_file_hash. footprint_auto. Qed.

Hint Resolve get_file_hash_events : footprints.

Lemma hashes_match_events s d :
  footprint hash_event anything anything (hashes_match E s d).
Proof. unfold hashes_match. footprint_auto. Qed.

Hypothesis Hok : hash_outputs_ok E.

Lemma get_file_hash_returns p w : ∃ h w', get_file_hash E p w = Done h w'.
Proof.
  unfold get_file_hash, bind, log, emit, call_hashsum. cbn.
  destruct (rclone_hashsum E _ _ _) as [out | rc err] eqn:Hout; cbn; [| eauto].
  destruct (nonempty out) eqn:Hne; cbn; [| eauto].
  destruct (first_word out) eqn:Hw; cbn; [eauto |].
  exfalso. exact (Hok _ _ _ _ Hout Hne Hw).
Qed.

Lemma hashes_match_returns s d w : ∃ ok w', hashes_match E s d w = Done ok w'.
Proof.
  unfold hashes_match.
  destruct (get_file_hash_returns s w) as (h1 & w1 & H1).
  rewrite (bind_done _ _ _ _ _ H1).
  destruct (get_file_hash_returns d w1) as (h2 & w2 & H2).
  rewrite (bind_done _ _ _ _ _ H2). cbn. eauto.
Qed.

End Hashing.

Lemma hash_events_filtered evs :
  Forall (fun e => hash_event e = true) evs →
  copies evs = [] ∧ deletes evs = [].
Proof.
  induction 1 as [| e evs He _ [IHc IHd]]; [split; reflexivity |].
  unfold copies, deletes in *. cbn. destruct e; try discriminate; cbn; auto.
Qed.

Lemma copies_app a b : copies (a ++ b) = copies a ++ copies b.
Proof. apply List.filter_app. Qed.

Lemma deletes_app a b : deletes (a ++ b) = deletes a ++ deletes b.
Proof. apply List.filter_app. Qed.

(** The traces of a verification, read for copies and deletions. *)
Lemma hashes_match_trace E s d w :
  copies (trace (world_of (hashes_match E s d w))) = copies (trace w)
  ∧ deletes (trace (world_of (hashes_match E s d w))) = deletes (trace w).
Proof.
  destruct (hashes_match_events E s d w) as (evs & -> & Hall & _).
  destruct (hash_events_filtered evs Hall) as [Hc Hd].
  rewrite copies_app, deletes_app, Hc, Hd, !app_nil_r. auto.
Qed.

Lemma report_not_copy p a : is_copy (delete_report p a) = false.
Proof. destruct a; reflexivity. Qed.

Lemma report_not_delete p a : is_delete (delete_report p a) = false.
Proof. destruct a; reflexivity. Qed.

Ltac read_trace :=
  cbn [world_of after trace];
  rewrite ?copies_app, ?deletes_app;
  cbn [copies deletes List.filter is_copy is_delete app];
  rewrite ?report_not_copy, ?report_not_delete, ?app_nil_r.

(** The body from the copy on, when the first copy lands and its
    verification returns a mismatch. *)
Lemma copy_and_verify_mismatch E src_path dest_path file file_size b w out w2 :
  rclone_copyto E (trace w) src_path dest_path = Stdout out →
  hashes_match E src_path dest_path (after w [ECopyto src_path dest_path]) = Done false w2 →
  let answer :=
    rclone_delete E (trace w2 ++ [ELog ERROR (HashMismatch (Path file));
                                  ELog DEBUG (DeleteStart dest_path)]) dest_path in
  let w4 := after w2 [ELog ERROR (HashMismatch (Path file));
                      ELog DEBUG (DeleteStart dest_path);
                      EDelete dest_path; delete_report dest_path answer] in
  let w5 := after w4 [ELog INFO (DeletedBad (Path file)); ELog INFO (Retrying (Path file))] in
  let w6 := after w5 [ECopyto src_path dest_path] in
  copy_and_verify E src_path dest_path file file_size b w
  = if succeeded answer then
      match rclone_copyto E (trace w5) src_path dest_path with
      | Stdout _ =>
          match hashes_match E src_path dest_path w6 with
          | Done ok w7 =>
              Done (if ok then count_file file_size b else b, Continue)
                   (after w7 [if ok then ELog INFO (RetryVerified (Path file))
                              else ELog ERROR (RetryMismatch (Path file))])
          | Crash e w7 => Crash e w7
          end
      | Failed returncode stderr =>
          Done (b, Continue)
               (after w6 [ELog ERROR (RetryFailed (Path file)
                                        ("Exit code " +:+ pretty returncode +:+ ": " +:+ stderr))])
      end
    else Done (b, Continue) (after w4 [ELog WARNING (CannotDeleteBad (Path file))]).
Proof.
  intros Hcopy Hmis answer w4 w5 w6.
  assert (Hdel : delete_file E dest_path
                   {| trace := trace w2 ++ [ELog ERROR (HashMismatch (Path file))];
                      cache := cache w2 |}
                 = Done (succeeded answer) w4).
  { rewrite delete_file_run. unfold w4, answer, after. cbn [trace cache].
    rewrite <- !app_assoc. reflexivity. }
  unfold copy_and_verify.
  unfold bind at 1. unfold run_rclone_copy at 1, bind at 1, call_copyto at 1.
  rewrite Hcopy. cbv beta iota. unfold ret at 1. cbv beta iota.
  unfold after in Hmis. rewrite (bind_done _ _ _ _ _ Hmis). cbv beta iota.
  unfold bind at 1. cbn [log emit]. rewrite (bind_done _ _ _ _ _ Hdel).
  destruct (succeeded answer); [| reflexivity].
  unfold bind at 1. cbn [log emit]. unfold bind at 1. cbn [log emit].
  assert (Hw5 : {| trace := trace {| trace := trace w4 ++ [ELog INFO (DeletedBad (Path file))];
                                     cache := cache w4 |}
                            ++ [ELog INFO (Retrying (Path file))];
                   cache := cache {| trace := trace w4 ++ [ELog INFO (DeletedBad (Path file))];
                                     cache := cache w4 |} |} = w5).
  { unfold w5, after. cbn [trace cache]. rewrite <- app_assoc. reflexivity. }
  rewrite Hw5.
  unfold bind at 1. unfold run_rclone_copy at 1, bind at 1, call_copyto at 1.
  fold (after w5 [ECopyto src_path dest_path]). fold w6.
  destruct (rclone_copyto E (trace w5) src_path dest_path) as [out2 | returncode stderr];
    cbv beta iota; unfold ret at 1; cbv beta iota.
  - unfold bind at 1.
    destruct (hashes_match E src_path dest_path w6) as [[|] w7 | e w7]; reflexivity.
  - reflexivity.
Qed.

(** C5, as the code has it.  The first copy of a file succeeds and its
    verification returns a mismatch.  Then the destination copy is deleted
    exactly once, and the copy is retried exactly once when that deletion
    succeeded and not at all when it failed; there is never a third
    copy.  When the deletion fails the file is reported with a warning.
    When the retry copy lands, the file is counted if its verification
    returns a match and is reported as an error if it returns a mismatch.
    When the retry copy fails with a message that names no quota keyword,
    the file is reported as an error.  In each of these cases but the
    match the totals are as they were, and in all of them the body ends
    with [continue]. *)
Theorem mismatch_retries_once E src_path dest_path file file_size b w out w2 :
  rclone_copyto E (trace w) src_path dest_path = Stdout out →
  hashes_match E src_path dest_path (after w [ECopyto src_path dest_path]) = Done false w2 →
  let answer :=
    rclone_delete E (trace w2 ++ [ELog ERROR (HashMismatch (Path file));
                                  ELog DEBUG (DeleteStart dest_path)]) dest_path in
  let w4 := after w2 [ELog ERROR (HashMismatch (Path file));
                      ELog DEBUG (DeleteStart dest_path);
                      EDelete dest_path; delete_report dest_path answer] in
  let w5 := after w4 [ELog INFO (DeletedBad (Path file)); ELog INFO (Retrying (Path file))] in
  let again := rclone_copyto E (trace w5) src_path dest_path in
  let w6 := after w5 [ECopyto src_path dest_path] in
  let r := copy_and_verify E src_path dest_path file file_size b w in
  deletes (trace (world_of r)) = deletes (trace w) ++ [EDelete dest_path]
  ∧ copies (trace (world_of r))
    = copies (trace w) ++ ECopyto src_path dest_path
                          :: (if succeeded answer then [ECopyto src_path dest_path] else [])
  ∧ (succeeded answer = false →
     r = Done (b, Continue) (after w4 [ELog WARNING (CannotDeleteBad (Path file))]))
  ∧ (succeeded answer = true → succeeded again = true →
     ∀ w7, hashes_match E src_path dest_path w6 = Done false w7 →
           r = Done (b, Continue) (after w7 [ELog ERROR (RetryMismatch (Path file))]))
  ∧ (succeeded answer = true → succeeded again = true →
     ∀ w7, hashes_match E src_path dest_path w6 = Done true w7 →
           r = Done (count_file file_size b, Continue)
                    (after w7 [ELog INFO (RetryVerified (Path file))]))
  ∧ (succeeded answer = true →
     ∀ returncode stderr,
       again = Failed returncode stderr →
       let error_msg := "Exit code " +:+ pretty returncode +:+ ": " +:+ stderr in
       is_quota_exceeded error_msg = false →
       r = Done (b, Continue) (after w6 [ELog ERROR (RetryFailed (Path file) error_msg)])).
Proof.
  intros Hcopy Hmis answer w4 w5 again w6 r.
  pose proof (hashes_match_trace E src_path dest_path (after w [ECopyto src_path dest_path]))
    as [Hc2 Hd2].
  rewrite Hmis in Hc2, Hd2. cbn [world_of after trace] in Hc2, Hd2.
  rewrite copies_app in Hc2. rewrite deletes_app in Hd2. cbn in Hc2, Hd2.
  rewrite app_nil_r in Hd2.
  assert (Hc4 : copies (trace w4) = copies (trace w) ++ [ECopyto src_path dest_path]).
  { unfold w4. read_trace. exact Hc2. }
  assert (Hd4 : deletes (trace w4) = deletes (trace w) ++ [EDelete dest_path]).
  { unfold w4. read_trace. rewrite Hd2. reflexivity. }
  assert (Hc6 : copies (trace w6)
                = copies (trace w) ++ [ECopyto src_path dest_path; ECopyto src_path dest_path]).
  { unfold w6, w5. read_trace. rewrite Hc4, <- app_assoc. reflexivity. }
  assert (Hd6 : deletes (trace w6) = deletes (trace w) ++ [EDelete dest_path]).
  { unfold w6, w5. read_trace. exact Hd4. }
  pose proof (hashes_match_trace E src_path dest_path w6) as [Hc7 Hd7].
  pose proof (copy_and_verify_mismatch E src_path dest_path file file_size b w out w2
                Hcopy Hmis) as Hr.
  cbv zeta in Hr. fold answer w4 w5 w6 again in Hr. fold r in Hr.
  clearbody r. subst r.
  destruct (succeeded answer).
  - destruct again as [out2 | returncode stderr] eqn:Hagain.
    + destruct (hashes_match E src_path dest_path w6) as [ok w7 | e w7];
        cbn [world_of] in Hc7, Hd7.
      * cbn [world_of after trace]. rewrite copies_app, deletes_app, Hc7, Hd7, Hc6, Hd6.
        assert (Hlog : copies [if ok then ELog INFO (RetryVerified (Path file))
                               else ELog ERROR (RetryMismatch (Path file))] = []
                       ∧ deletes [if ok then ELog INFO (RetryVerified (Path file))
                                  else ELog ERROR (RetryMismatch (Path file))] = [])
          by (destruct ok; split; reflexivity).
        destruct Hlog as [-> ->]. rewrite !app_nil_r.
        split; [reflexivity |]. split; [reflexivity |].
        split; [discriminate |].
        split; [intros _ _ w7' [= -> ->]; reflexivity |].
        split; [intros _ _ w7' [= -> ->]; reflexivity |].
        intros _ returncode stderr; discriminate.
      * cbn [world_of]. rewrite Hc7, Hd7, Hc6, Hd6.
        split; [reflexivity |]. split; [reflexivity |].
        split; [discriminate |].
        split; [intros _ _ w7'; discriminate |].
        split; [intros _ _ w7'; discriminate |].
        intros _ returncode stderr; discriminate.
    + cbn [world_of after trace]. rewrite copies_app, deletes_app, Hc6, Hd6. cbn.
      rewrite !app_nil_r.
      split; [reflexivity |]. split; [reflexivity |].
      split; [discriminate |].
      split; [intros _; discriminate |].
      split; [intros _; discriminate |].
      intros _ rc err [= <- <-] _. reflexivity.
  - cbn [world_of after trace]. rewrite copies_app, deletes_app, Hc4, Hd4. cbn.
    rewrite !app_nil_r.
    split; [reflexivity |]. split; [reflexivity |].
    split; [reflexivity |].
    split; [discriminate |]. split; [discriminate |]. discriminate.
Qed.

(** The copies of [B] land corrupted, the first one and the retry: one
    deletion, two copies, an error record and no count.  When the tool
    refuses the deletion there is one copy and a warning. *)
Lemma mismatch_retries_once_witness :
  let r := copy_and_verify stubborn "src:m/B" "dst:m/B" (entry "B" 20 "h2") 20 no_budget fresh in
  let r' := copy_and_verify undeletable "src:m/B" "dst:m/B" (entry "B" 20 "h2") 20 no_budget fresh in
  deletes (trace (world_of r)) = [EDelete "dst:m/B"]
  ∧ copies (trace (world_of r)) = [ECopyto "src:m/B" "dst:m/B"; ECopyto "src:m/B" "dst:m/B"]
  ∧ value_of r = Some (no_budget, Continue)
  ∧ errors (trace (world_of r))
    = [ELog ERROR (HashMismatch "B"); ELog ERROR (RetryMismatch "B")]
  ∧ copies (trace (world_of r')) = [ECopyto "src:m/B" "dst:m/B"]
  ∧ value_of r' = Some (no_budget, Continue)
  ∧ In (ELog WARNING (CannotDeleteBad "B")) (trace (world_of r')).
Proof.
  edestruct (mismatch_retries_once stubborn "src:m/B" "dst:m/B" (entry "B" 20 "h2") 20
               no_budget fresh) as (Hd & Hc & _ & Hretry & _).
  - reflexivity.
  - vm_compute. reflexivity.
  - edestruct (mismatch_retries_once undeletable "src:m/B" "dst:m/B" (entry "B" 20 "h2") 20
                 no_budget fresh) as (_ & Hc' & Hwarn & _).
    + reflexivity.
    + vm_compute. reflexivity.
    + cbv zeta. split; [exact Hd |]. split; [exact Hc |].
      erewrite Hretry; [| reflexivity | reflexivity | vm_compute; reflexivity].
      split; [reflexivity |]. split; [vm_compute; reflexivity |].
      split; [exact Hc' |].
      rewrite Hwarn by reflexivity.
      split; [reflexivity |]. vm_compute. tauto.
Defined.

(** When the tool refuses the deletion, the copy is not retried: the
    specification's retry does not hold of the code. *)
Lemma no_retry_without_deletion : ¬ always_retries undeletable.
Proof.
  intros H.
  edestruct (H "src:m/B" "dst:m/B" (entry "B" 20 "h2") 20 no_budget fresh) as [_ Hc].
  - reflexivity.
  - vm_compute. reflexivity.
  - vm_compute in Hc. discriminate Hc.
Qed.

(** ** The deadline *)

Lemma at_23_passed t : 23 <= hour_of t → at_23 t <= t.
Proof.
  unfold hour_of, at_23, usec_per_day, usec_per_hour. intros H.
  assert (Hm : 23 * 3600000000 <= t `mod` (24 * 3600000000)).
  { destruct (Z.le_gt_cases (23 * 3600000000) (t `mod` (24 * 3600000000))) as [Hle | Hgt];
      [exact Hle | exfalso].
    assert ((t `mod` (24 * 3600000000)) `div` 3600000000 < 23); [| lia].
    apply Z.div_lt_upper_bound; lia. }
  pose proof (Z.div_mod t (24 * 3600000000) ltac:(lia)). lia.
Qed.

Lemma extends_quietly_refl w : extends_quietly w w.
Proof. exists []. rewrite app_nil_r. auto. Qed.

Lemma extends_quietly_trans w1 w2 w3 :
  extends_quietly w1 w2 → extends_quietly w2 w3 → extends_quietly w1 w3.
Proof.
  intros (e1 & H1 & F1) (e2 & H2 & F2). exists (e1 ++ e2).
  rewrite H2, H1, app_assoc. split; [reflexivity | apply Forall_app; auto].
Qed.

Lemma extends_quietly_after w evs :
  Forall (fun e => no_copy e = true) evs → extends_quietly w (after w evs).
Proof. intros H. exists evs. auto. Qed.

Lemma extends_quietly_copies w w' :
  extends_quietly w w' → copies (trace w') = copies (trace w).
Proof.
  intros (evs & -> & Hall). unfold copies. rewrite List.filter_app.
  assert (List.filter is_copy evs = []) as ->; [| apply app_nil_r].
  induction Hall as [| e evs He _ IH]; [reflexivity |].
  cbn. unfold no_copy in He. destruct (is_copy e); [discriminate | exact IH].
Qed.

(** A function that issues no copy and raises nothing, run from a world. *)
Lemma quiet_run {A} (m : M A) w :
  footprint no_copy anything never m →
  ∃ a w', m w = Done a w' ∧ extends_quietly w w'.
Proof.
  intros Hm. destruct (Hm w) as (evs & Ht & Hall & Hres).
  destruct (m w) as [a w' | e w']; [| destruct Hres].
  exists a, w'. split; [reflexivity | exists evs; auto].
Qed.

Section Late.

Variables (E : Env) (w0 : World) (stop_time : Z).

(** From [w0] on, every reading of the clock is past the deadline. *)
Hypothesis Hlate : ∀ evs, stop_time <= clock E (trace w0 ++ evs).

Lemma late_reading w : extends_quietly w0 w → stop_time <= clock E (trace w).
Proof. intros (evs & -> & _). apply Hlate. Qed.

Lemma sync_file_late source destination free_space file b w :
  extends_quietly w0 w →
  sync_file E source destination free_space stop_time file b w
  = Done (b, Return)
         (after w [ELog INFO (DeadlineReached (clock E (trace w)));
                   ELog INFO (Finished (total_copied b) (total_size_copied b))]).
Proof.
  intros Hw. unfold sync_file. unfold bind at 1. cbn [now].
  destruct (Z.leb_spec stop_time (clock E (trace w))) as [_ | Hlt].
  - unfold bind, log, emit, ret, after. cbn. rewrite <- app_assoc. reflexivity.
  - pose proof (late_reading w Hw). lia.
Qed.

Lemma sync_plan_late source destination free_space file files b w :
  extends_quietly w0 w →
  sync_plan E source destination free_space stop_time (file :: files) b w
  = Done (b, Return)
         (after w [ELog INFO (DeadlineReached (clock E (trace w)));
                   ELog INFO (Finished (total_copied b) (total_size_copied b))]).
Proof.
  intros Hw. cbn [sync_plan].
  rewrite (bind_done _ _ _ _ _ (sync_file_late _ _ _ _ _ _ Hw)). reflexivity.
Qed.

(** The body of the loop over the pairs, run late: the totals are left as
    they were and no copy is issued; the only exceptions are the one of
    the unpacking and the one of the division. *)
Lemma sync_pair_late transfer b w :
  extends_quietly w0 w →
  let r := sync_pair E stop_time transfer b w in
  extends_quietly w0 (world_of r)
  ∧ match r with
    | Done (b', _) _ => b' = b
    | Crash e _ => e = ValueError ∨ e = OverflowError
    end.
Proof.
  intros Hw r. remember r as res eqn:Hr. subst r.
  destruct transfer as [source destination].
  unfold sync_pair in Hr. cbn [fst snd] in Hr.
  destruct (capacity_quiet E destination w) as (evs & Ht & Hall & Hres).
  destruct (get_gdrive_free_space_percent_from_path E destination w)
    as [t w1 | e w1] eqn:Hcap; cbn [world_of] in Ht.
  2: { rewrite (bind_crash _ _ _ _ _ Hcap) in Hr. subst res. cbn [world_of].
       split; [| right; exact Hres].
       eapply extends_quietly_trans; [exact Hw | exists evs; auto]. }
  assert (H1 : extends_quietly w w1) by (exists evs; auto).
  clear evs Ht Hall Hres.
  rewrite (bind_done _ _ _ _ _ Hcap) in Hr.
  pose proof (extends_quietly_trans _ _ _ Hw H1) as Hw1.
  assert (Hlog : ∀ w' e, extends_quietly w0 w' → no_copy e = true →
                         extends_quietly w0 {| trace := trace w' ++ [e]; cache := cache w' |}).
  { intros w' e Hw' He. eapply extends_quietly_trans; [exact Hw' |].
    apply (extends_quietly_after w' [e]). repeat constructor. exact He. }
  destruct t as [success percent free_space | success message];
    [| subst res; cbn; split; [exact Hw1 | left; reflexivity]].
  unfold bind at 1 in Hr. cbn [unpack3 ret] in Hr.
  destruct success; cbn [negb] in Hr.
  2: { subst res. cbn. split; [apply Hlog; auto | reflexivity]. }
  destruct (Qltb percent 2).
  { subst res. cbn. split; [apply Hlog; auto | reflexivity]. }
  unfold bind at 1 in Hr. cbn [log emit] in Hr.
  match type of Hr with _ = bind _ _ ?x => set (w2 := x) in Hr end.
  assert (Hw2 : extends_quietly w0 w2) by (apply Hlog; auto).
  destruct (quiet_run _ w2 (check_remote_exists_quiet E source)) as (ex & w3 & Hex & H3).
  rewrite (bind_done _ _ _ _ _ Hex) in Hr.
  pose proof (extends_quietly_trans _ _ _ Hw2 H3) as Hw3.
  destruct ex; cbn [negb] in Hr.
  2: { subst res. cbn. split; [apply Hlog; auto | reflexivity]. }
  destruct (quiet_run _ w3 (get_files_to_copy_quiet E source destination))
    as (files & w4 & Hplan & H4).
  rewrite (bind_done _ _ _ _ _ Hplan) in Hr.
  pose proof (extends_quietly_trans _ _ _ Hw3 H4) as Hw4.
  destruct files as [| file files]; cbn [is_nil] in Hr.
  - destruct (quiet_run _ w4 (get_cached_files_quiet E source true))
      as (sf & w5 & Hsf & H5).
    rewrite (bind_done _ _ _ _ _ Hsf) in Hr.
    pose proof (extends_quietly_trans _ _ _ Hw4 H5) as Hw5.
    destruct (is_nil sf); subst res; cbn; (split; [apply Hlog; auto | reflexivity]).
  - unfold bind at 1 in Hr. cbn [log emit] in Hr.
    match type of Hr with _ = sync_plan E _ _ _ _ _ _ ?x => set (w5 := x) in Hr end.
    assert (Hw5 : extends_quietly w0 w5) by (apply Hlog; auto).
    rewrite (sync_plan_late _ _ _ _ _ _ _ Hw5) in Hr. subst res. cbn [world_of].
    split; [| reflexivity].
    eapply extends_quietly_trans; [exact Hw5 |].
    apply (extends_quietly_after w5 [_; _]). repeat constructor.
Qed.

Lemma sync_pairs_late transfers :
  ∀ b w, extends_quietly w0 w →
  let r := sync_pairs E stop_time transfers b w in
  extends_quietly w0 (world_of r)
  ∧ match r with
    | Done (b', _) _ => b' = b
    | Crash e _ => e = ValueError ∨ e = OverflowError
    end.
Proof.
  induction transfers as [| transfer rest IH]; intros b w Hw r;
    remember r as res eqn:Hr; subst r; cbn [sync_pairs] in Hr.
  - subst res. cbn. auto.
  - destruct (sync_pair_late transfer b w Hw) as [Hx Hres].
    unfold bind at 1 in Hr.
    destruct (sync_pair E stop_time transfer b w) as [[b' c] w1 | e w1]; cbn [world_of] in *.
    + subst b'. destruct c; [subst res; apply IH; exact Hx | subst res; cbn; auto].
    + subst res. cbn. auto.
Qed.

End Late.
(** ** A run that starts late *)

Lemma quiet_extends {A} (Q : A → Prop) X (m : M A) w :
  footprint no_copy Q X m → extends_quietly w (world_of (m w)).
Proof.
  intros Hm. destruct (Hm w) as (evs & Ht & Hall & _). exists evs. auto.
Qed.

Lemma loop_stale_keeps dict e : loop_stale dict e = true → loop_keeps dict e = true.
Proof. unfold loop_stale, loop_keeps. destruct (dict !! Path e); [auto | discriminate]. Qed.

Lemma diff_loop_deletes E destination dict S :
  ∀ acc w,
    deletes (trace (world_of (diff_loop E destination dict S acc w)))
    = deletes (trace w)
      ++ map (fun e => EDelete (destination +:+ "/" +:+ Path e))
             (List.filter (loop_stale dict) S).
Proof.
  induction S as [| e S IH]; intros acc w; cbn [diff_loop List.filter map].
  - cbn. rewrite app_nil_r. reflexivity.
  - unfold loop_stale at 1. destruct (dict !! Path e) as [d |].
    + destruct (nonempty (md5_or_empty e) && nonempty (md5_or_empty d)
                && negb (String.eqb (md5_or_empty e) (md5_or_empty d))).
      * unfold bind at 1. cbn [log emit]. rewrite (bind_done _ _ _ _ _ (delete_file_run E _ _)).
        rewrite IH. cbn [after trace map]. rewrite !deletes_app. cbn [deletes List.filter is_delete].
        rewrite report_not_delete, !app_nil_r, <- app_assoc. reflexivity.
      * apply IH.
    + unfold bind at 1. cbn [log emit]. rewrite IH. cbn [trace].
      rewrite deletes_app. cbn. rewrite app_nil_r. reflexivity.
Qed.

(** The snapshots are taken without a deletion. *)
Lemma check_remote_exists_keeps E p :
  footprint no_delete anything never (check_remote_exists E p).
Proof. unfold check_remote_exists. footprint_auto. Qed.

Lemma get_cached_files_keeps E p r :
  footprint no_delete anything never (get_cached_files E p r).
Proof.
  pose proof (check_remote_exists_keeps E p).
  unfold get_cached_files. footprint_auto.
Qed.

Lemma kept_deletes evs :
  Forall (fun e => no_delete e = true) evs → deletes evs = [].
Proof.
  induction 1 as [| e evs He _ IH]; [reflexivity |].
  unfold deletes in *. cbn. unfold no_delete in He.
  destruct (is_delete e); [discriminate | exact IH].
Qed.

Lemma get_cached_files_trace E p r w files w' :
  get_cached_files E p r w = Done files w' →
  ∃ evs, trace w' = trace w ++ evs ∧ deletes evs = []
         ∧ Forall (fun e => no_copy e = true) evs.
Proof.
  intros Hrun.
  destruct (get_cached_files_keeps E p r w) as (evs & Ht & Hall & _).
  destruct (get_cached_files_quiet E p r w) as (evs' & Ht' & Hall' & _).
  rewrite Hrun in Ht, Ht'. cbn [world_of] in Ht, Ht'.
  assert (evs' = evs) as -> by (rewrite Ht in Ht'; exact (app_inv_head _ _ _ (eq_sym Ht'))).
  exists evs. split; [exact Ht | split; [apply kept_deletes; exact Hall | exact Hall']].
Qed.

(** The plan of a day without a cached plan, from two snapshots of which
    the first is not empty. *)
Lemma get_files_to_copy_run E source destination w S w1 D w2 :
  let cache_file := plan_file E source (strftime_ymd E (clock E (trace w))) in
  let dict := index_by_path D in
  let plan := List.filter (loop_keeps dict) S in
  let w3 := world_of (diff_loop E destination dict S [] w2) in
  cache w !! cache_file = None →
  get_cached_files E source true w = Done S w1 →
  get_cached_files E destination false w1 = Done D w2 →
  S ≠ [] →
  get_files_to_copy E source destination w
  = Done plan {| trace := trace w3 ++ [ECacheWrite cache_file plan];
                 cache := <[cache_file := plan]> (cache w3) |}.
Proof.
  intros cache_file dict plan w3 Hmiss HS HD Hne.
  unfold get_files_to_copy.
  unfold bind at 1. cbn [now]. unfold bind at 1. cbn [read_cache].
  fold cache_file. rewrite Hmiss.
  rewrite (bind_done _ _ _ _ _ HS).
  destruct S as [| e S]; [contradiction |].
  cbn [is_nil]. unfold bind at 1. cbn [ret].
  rewrite (bind_done _ _ _ _ _ HD). fold dict.
  pose proof (diff_loop_extends E destination dict (e :: S) [] w2) as Hv.
  subst w3. unfold bind at 1.
  destruct (diff_loop E destination dict (e :: S) [] w2) as [files w3 | x w3];
    cbn in Hv; [| discriminate].
  injection Hv as ->. cbn [world_of]. reflexivity.
Qed.



(** ** The capacity query in the loop over the pairs *)

(** Every [except] clause of the capacity query returns a pair. *)
Lemma capacity_failure_is_pair E destination w t w1 :
  get_gdrive_free_space_percent_from_path E destination w = Done t w1 →
  (∃ percent free, t = Tuple3 true percent free
                   ∧ ∃ total, rclone_about E (trace w) (before ":" destination +:+ ":")
                              = AboutData (Num total) (Num free))
  ∨ (∃ message, t = Tuple2 false message).
Proof.
  unfold get_gdrive_free_space_percent_from_path, extract_remote_name.
  destruct (negb (contains ":" destination)); [intros [= <- _]; eauto |].
  unfold bind, call_about, ret.
  destruct (rclone_about E _ _) as [? | | [| | total] [| | free]] eqn:Hab;
    try (destruct (division_overflows free total); [discriminate |]);
    intros [= <- _]; eauto 6.
Qed.

(** A pair returned by the capacity query ends the run in the unpacking:
    the branch that logs the failure and continues is never reached. *)
Lemma capacity_pair_raises E stop_time source destination b w success message w1 :
  get_gdrive_free_space_percent_from_path E destination w = Done (Tuple2 success message) w1 →
  sync_pair E stop_time (source, destination) b w = Crash ValueError w1.
Proof.
  intros Hcap. unfold sync_pair. cbn [fst snd].
  rewrite (bind_done _ _ _ _ _ Hcap). reflexivity.
Qed.

Lemma sync_pairs_raises E stop_time transfer rest b w e w1 :
  sync_pair E stop_time transfer b w = Crash e w1 →
  sync_pairs E stop_time (transfer :: rest) b w = Crash e w1.
Proof. intros H. cbn [sync_pairs]. apply bind_crash. exact H. Qed.

(** C1, on the code.  A destination without a colon, a failing [rclone
    about] and a payload without its ["free"] member all end the run in an
    unhandled [ValueError]: nothing is logged about the failure and the
    second, healthy pair is never looked at. *)
Theorem capacity_failure_ends_run :
  sync_files healthy [("src:m", "dstm"); ("src:m", "dst:m")] fresh
  = Crash ValueError {| trace := [ELog INFO (StopAt (at_23 noon))]; cache := ∅ |}
  ∧ sync_files about_down [("src:m", "dst:m"); ("src:m", "alt:m")] fresh
    = Crash ValueError {| trace := [ELog INFO (StopAt (at_23 noon)); EAbout "dst:"];
                          cache := ∅ |}
  ∧ sync_files about_garbled [("src:m", "dst:m"); ("src:m", "alt:m")] fresh
    = Crash ValueError {| trace := [ELog INFO (StopAt (at_23 noon)); EAbout "dst:"];
                          cache := ∅ |}.
Proof. repeat split; vm_compute; reflexivity. Qed.

(** ** The plan cache *)

Lemma plan_cache_hit E source destination w plan :
  cache w !! plan_file E source (strftime_ymd E (clock E (trace w))) = Some plan →
  get_files_to_copy E source destination w
  = Done plan (after w [ELog INFO (PlanCacheHit
                          (plan_file E source (strftime_ymd E (clock E (trace w)))))]).
Proof.
  intros Hhit. unfold get_files_to_copy.
  unfold bind at 1. cbn [now]. unfold bind at 1. cbn [read_cache]. rewrite Hhit.
  reflexivity.
Qed.

(** A plan that is not empty was read from the cache or has just been
    written to it. *)
Lemma plan_is_cached E source destination w plan w1 :
  get_files_to_copy E source destination w = Done plan w1 →
  plan ≠ [] →
  cache w1 !! plan_file E source (strftime_ymd E (clock E (trace w))) = Some plan.
Proof.
  unfold get_files_to_copy.
  unfold bind at 1. cbn [now]. unfold bind at 1. cbn [read_cache].
  destruct (cache w !! _) as [cached |] eqn:Hc.
  - unfold bind, log, emit, ret. intros [= <- <-] _. exact Hc.
  - unfold bind at 1.
    destruct (get_cached_files E source true w) as [S wa | e wa]; [| discriminate].
    unfold bind at 1.
    lazymatch goal with
    | |- match ?x with _ => _ end = _ → _ => destruct x as [missing wb | e wb]
    end; [| discriminate].
    destruct missing.
    + unfold bind, log, emit, ret. intros [= <- _] Hne. contradiction.
    + unfold bind at 1.
      destruct (get_cached_files E destination false wb) as [D wc | e wc]; [| discriminate].
      unfold bind at 1.
      destruct (diff_loop E destination (index_by_path D) S [] wc) as [files wd | e wd];
        [| discriminate].
      unfold bind, write_cache, ret. intros [= <- <-] _. cbn [cache].
      apply lookup_insert_eq.
Qed.

(** The part of C2 that holds: on the same day, a second call for the
    source returns the plan of the first without any call of the tool.  It
    does so whatever the destination of the second call is. *)
Lemma plan_reused E source destination destination' w plan w1 :
  get_files_to_copy E source destination w = Done plan w1 →
  plan ≠ [] →
  strftime_ymd E (clock E (trace w1)) = strftime_ymd E (clock E (trace w)) →
  get_files_to_copy E source destination' w1
  = Done plan (after w1 [ELog INFO (PlanCacheHit
                           (plan_file E source (strftime_ymd E (clock E (trace w)))))]).
Proof.
  intros Hfirst Hne Hday.
  rewrite <- Hday. apply plan_cache_hit. rewrite Hday.
  exact (plan_is_cached E source destination w plan w1 Hfirst Hne).
Qed.

(** C2, on the code.  The plan of [src:m] against [dst:m] is computed
    first; the call for [src:m] against the empty tree [alt:m] on the same
    day then returns that plan from the cache, without listing [alt:m],
    although computed on its own it is the whole source tree. *)
Theorem plan_cache_ignores_destination :
  let first := get_files_to_copy healthy "src:m" "dst:m" fresh in
  let second := get_files_to_copy healthy "src:m" "alt:m" (world_of first) in
  value_of first = Some [entry "B" 20 "h2"; entry "C" 30 "h3"]
  ∧ value_of second = Some [entry "B" 20 "h2"; entry "C" 30 "h3"]
  ∧ listings (trace (world_of second)) = listings (trace (world_of first))
  ∧ value_of (get_files_to_copy healthy "src:m" "alt:m" fresh) = Some src_tree
  ∧ plan_file healthy "src:m" "0" = "cache/sync_list_src:m_0.json".
Proof. repeat split; vm_compute; reflexivity. Qed.

(** ** Quota detection *)

(** The first copy of a file fails: the error text decides between the
    end of the run and the next file. *)
Lemma first_copy_failure E src_path dest_path file file_size b w returncode stderr :
  rclone_copyto E (trace w) src_path dest_path = Failed returncode stderr →
  let error_msg := "Exit code " +:+ pretty returncode +:+ ": " +:+ stderr in
  copy_and_verify E src_path dest_path file file_size b w
  = if is_quota_exceeded error_msg
    then Done (b, Return)
           (after w [ECopyto src_path dest_path; ELog ERROR (CopyFailed (Path file) error_msg);
                     ELog ERROR (QuotaStop error_msg)])
    else Done (b, Continue)
           (after w [ECopyto src_path dest_path; ELog ERROR (CopyFailed (Path file) error_msg)]).
Proof.
  intros Hcopy error_msg.
  unfold copy_and_verify, run_rclone_copy, call_copyto, bind, log, emit, ret, after.
  rewrite Hcopy. cbv beta iota. fold error_msg. cbn [trace cache].
  destruct (is_quota_exceeded error_msg); cbn [trace cache];
    rewrite <- !app_assoc; reflexivity.
Qed.

(** The retry of a file fails after the bad copy was deleted: the error
    text is logged and not looked at. *)
Lemma retry_failure_continues E src_path dest_path file file_size b w out w2 w3 returncode stderr :
  rclone_copyto E (trace w) src_path dest_path = Stdout out →
  hashes_match E src_path dest_path (after w [ECopyto src_path dest_path]) = Done false w2 →
  delete_file E dest_path (after w2 [ELog ERROR (HashMismatch (Path file))]) = Done true w3 →
  rclone_copyto E (trace w3 ++ [ELog INFO (DeletedBad (Path file));
                                ELog INFO (Retrying (Path file))]) src_path dest_path
    = Failed returncode stderr →
  copy_and_verify E src_path dest_path file file_size b w
  = Done (b, Continue)
      (after w3 [ELog INFO (DeletedBad (Path file)); ELog INFO (Retrying (Path file));
                 ECopyto src_path dest_path;
                 ELog ERROR (RetryFailed (Path file)
                               ("Exit code " +:+ pretty returncode +:+ ": " +:+ stderr))]).
Proof.
  intros Hcopy Hmis Hdel Hretry.
  unfold copy_and_verify, run_rclone_copy, call_copyto, bind, log, emit, ret.
  rewrite Hcopy. cbv beta iota. unfold after in Hmis, Hdel. rewrite Hmis. cbv beta iota.
  rewrite Hdel. cbv beta iota. cbn [trace cache]. rewrite <- app_assoc. cbn [app].
  rewrite Hretry. cbv beta iota. unfold after. cbn [trace cache].
  rewrite <- !app_assoc. reflexivity.
Qed.

(** C3, on the code.  The copy of [B] lands corrupted, is deleted and
    retried; the retry fails with a quota error, which [is_quota_exceeded]
    recognises.  The run does not stop: the failure is logged and the next
    file, [C], is copied and counted. *)
Theorem quota_on_retry_goes_on :
  let r := sync_files throttled [("src:m", "dst:m")] fresh in
  let error_msg := "Exit code 1: googleapi: Error 403: quotaExceeded" in
  is_quota_exceeded error_msg = true
  ∧ List.filter is_error (trace (world_of r))
    = [ELog ERROR (HashMismatch "B"); ELog ERROR (RetryFailed "B" error_msg)]
  ∧ copies (trace (world_of r))
    = [ECopyto "src:m/B" "dst:m/B"; ECopyto "src:m/B" "dst:m/B"; ECopyto "src:m/C" "dst:m/C"]
  ∧ value_of r = Some {| total_copied := 1; total_size_copied := 30 |}.
Proof. repeat split; vm_compute; reflexivity. Qed.

(** ** The quota indicators *)

Lemma prefix_iff k s : String.prefix k s = true ↔ ∃ post, s = k +:+ post.
Proof.
  revert s. induction k as [| a k IH]; intros s.
  - split; [intros _; exists s; reflexivity | intros _; destruct s; reflexivity].
  - destruct s as [| c s]; cbn [String.prefix String.append].
    + split; [discriminate | intros [post H]; discriminate H].
    + destruct (ascii_dec a c) as [-> | Hne].
      * rewrite IH. split; intros [post H]; exists post; [rewrite H; reflexivity |].
        injection H as H. exact H.
      * split; [discriminate | intros [post H]]. injection H as Hc _. congruence.
Qed.

(** [contains k s] is Python's [k in s]: [k] occurs somewhere in [s]. *)
Lemma contains_iff k s : contains k s = true ↔ ∃ pre post, s = pre +:+ k +:+ post.
Proof.
  induction s as [| c s IH]; cbn [contains].
  - rewrite orb_false_r, prefix_iff. split.
    + intros [post H]. exists EmptyString, post. exact H.
    + intros (pre & post & H). destruct pre as [| a pre]; [eauto | discriminate H].
  - rewrite orb_true_iff, prefix_iff, IH. split.
    + intros [[post H] | (pre & post & H)].
      * exists EmptyString, post. exact H.
      * exists (String c pre), post. cbn. rewrite H. reflexivity.
    + intros (pre & post & H). destruct pre as [| a pre].
      * left. exists post. exact H.
      * right. injection H as _ H. eauto.
Qed.

(** An error text is a quota error when, both put in lower case, one of
    the five keywords occurs in it. *)
Lemma is_quota_exceeded_iff error_msg :
  is_quota_exceeded error_msg = true
  ↔ ∃ k, In k keywords ∧ ∃ pre post, lower error_msg = pre +:+ lower k +:+ post.
Proof.
  unfold is_quota_exceeded. rewrite existsb_exists.
  split; intros (k & Hk & H); exists k; (split; [exact Hk |]); apply contains_iff; exact H.
Qed.

(** ** Leaving the run *)

(** A [return] in the body for one file leaves the plan and the pairs
    that remain untouched. *)
Lemma sync_plan_return E source destination free_space stop_time file rest b w b' w' :
  sync_file E source destination free_space stop_time file b w = Done (b', Return) w' →
  sync_plan E source destination free_space stop_time (file :: rest) b w
  = Done (b', Return) w'.
Proof. intros H. cbn [sync_plan]. rewrite (bind_done _ _ _ _ _ H). reflexivity. Qed.

Lemma sync_pairs_return E stop_time transfer rest b w b' w' :
  sync_pair E stop_time transfer b w = Done (b', Return) w' →
  sync_pairs E stop_time (transfer :: rest) b w = Done (b', Return) w'.
Proof. intros H. cbn [sync_pairs]. rewrite (bind_done _ _ _ _ _ H). reflexivity. Qed.

Lemma sync_plan_continue E source destination free_space stop_time file rest b w b' w' :
  sync_file E source destination free_space stop_time file b w = Done (b', Continue) w' →
  sync_plan E source destination free_space stop_time (file :: rest) b w
  = sync_plan E source destination free_space stop_time rest b' w'.
Proof. intros H. cbn [sync_plan]. rewrite (bind_done _ _ _ _ _ H). reflexivity. Qed.

(** The scenario of the specification: the source holds [A] and [B], the
    destination holds the same [A], 1000 bytes are free.  The plan is [B],
    and the run copies one file of 20 bytes. *)
Example scenario_plan :
  value_of (get_files_to_copy scenario "src:s" "dst:s" fresh) = Some [entry "B" 20 "h2"].
Proof. vm_compute. reflexivity. Qed.

Example scenario_run :
  value_of (sync_files scenario [("src:s", "dst:s")] fresh)
  = Some {| total_copied := 1; total_size_copied := 20 |}.
Proof. vm_compute. reflexivity. Qed.

(** ** Remote names *)

Lemma before_splits sep s :
  contains (String sep EmptyString) s = true →
  ∃ rest, s = before sep s +:+ String sep rest.
Proof.
  induction s as [| c s IH]; cbn [contains before].
  - cbn. discriminate.
  - cbn [String.prefix]. destruct (ascii_dec sep c) as [<- | Hne].
    + intros _. rewrite Ascii.eqb_refl. exists s. reflexivity.
    + destruct (Ascii.eqb_spec c sep) as [-> | _]; [congruence |].
      cbn [orb]. intros H. destruct (IH H) as [rest Hrest].
      exists rest. change (String c s = String c (before sep s +:+ String sep rest)).
      f_equal. exact Hrest.
Qed.

Lemma before_has_no_sep sep s : count_char sep (before sep s) = 0%nat.
Proof.
  induction s as [| c s IH]; cbn [before]; [reflexivity |].
  destruct (Ascii.eqb c sep) eqn:Hc; [reflexivity |].
  cbn [count_char]. rewrite Hc. exact IH.
Qed.

(** X1. The remote name is what stands before the first colon: it holds no
    colon itself and the path is the name, a colon and a rest; a path
    without a colon has no remote name. *)
Theorem extract_remote_name_splits remote_path :
  match extract_remote_name remote_path with
  | inr remote =>
      count_char ":" remote = 0%nat ∧ ∃ rest, remote_path = remote +:+ ":" +:+ rest
  | inl e => e = ValueError ∧ count_char ":" remote_path = 0%nat
  end.
Proof.
  unfold extract_remote_name.
  destruct (contains ":" remote_path) eqn:Hc; cbn [negb].
  - split; [apply before_has_no_sep | apply before_splits; exact Hc].
  - split; [reflexivity |].
    induction remote_path as [| c s IH]; [reflexivity |].
    cbn [contains String.prefix] in Hc. cbn [count_char].
    destruct (ascii_dec ":" c) as [<- | Hne].
    + destruct s; discriminate Hc.
    + cbn [orb] in Hc. rewrite (IH Hc).
      destruct (Ascii.eqb_spec c ":") as [-> | _]; [congruence | reflexivity].
Qed.

(** ** White space and the first word of an output *)

Lemma append_cons c a b : String c a +:+ b = String c (a +:+ b).
Proof. reflexivity. Qed.

Lemma append_empty a : a +:+ EmptyString = a.
Proof. induction a as [| c a IH]; [reflexivity |]. rewrite append_cons, IH. reflexivity. Qed.

Lemma is_space2_lead c1 c2 : is_space2 c1 c2 = true → is_space c1 = false.
Proof.
  unfold is_space2, is_space. intros H.
  apply andb_prop in H as [H _]. apply Nat.eqb_eq in H. rewrite H. reflexivity.
Qed.

Lemma is_space3_lead c1 c2 c3 :
  is_space3 c1 c2 c3 = true → is_space c1 = false ∧ is_space2 c1 c2 = false.
Proof.
  unfold is_space3, is_space2, is_space. intros H.
  repeat (apply orb_prop in H as [H | H]);
    repeat (apply andb_prop in H as [H ?]);
    apply Nat.eqb_eq in H; rewrite H; split; reflexivity.
Qed.

(** The later bytes of a white-space character are continuation bytes,
    which start none. *)
Lemma continuation_not_lead c :
  (128 <= nat_of_ascii c < 194)%nat → lead_byte c = false.
Proof.
  unfold lead_byte, is_space. generalize (nat_of_ascii c) as n. intros n Hn.
  assert ((n <=? 13) = false)%nat as -> by (apply Nat.leb_gt; lia).
  assert ((n <=? 32) = false)%nat as -> by (apply Nat.leb_gt; lia).
  assert ((n =? 194) = false)%nat as -> by (apply Nat.eqb_neq; lia).
  assert ((n =? 225) = false)%nat as -> by (apply Nat.eqb_neq; lia).
  assert ((n =? 226) = false)%nat as -> by (apply Nat.eqb_neq; lia).
  assert ((n =? 227) = false)%nat as -> by (apply Nat.eqb_neq; lia).
  rewrite !andb_false_r. reflexivity.
Qed.

Ltac read_bytes :=
  repeat match goal with
         | H : (_ || _) = true |- _ => apply orb_prop in H as [H | H]
         | H : (_ && _) = true |- _ => apply andb_prop in H as [H ?]
         | H : (_ =? _)%nat = true |- _ => apply Nat.eqb_eq in H
         | H : (_ <=? _)%nat = true |- _ => apply Nat.leb_le in H
         end.

Lemma is_space2_second c1 c2 :
  is_space2 c1 c2 = true → lead_byte c2 = false.
Proof.
  unfold is_space2. intros H. apply continuation_not_lead.
  revert H. generalize (nat_of_ascii c1) as n1, (nat_of_ascii c2) as n2.
  intros n1 n2 H. read_bytes; lia.
Qed.

Lemma is_space3_later c1 c2 c3 :
  is_space3 c1 c2 c3 = true → lead_byte c2 = false ∧ lead_byte c3 = false.
Proof.
  unfold is_space3. intros H.
  split; apply continuation_not_lead; revert H;
    generalize (nat_of_ascii c1) as n1, (nat_of_ascii c2) as n2, (nat_of_ascii c3) as n3;
    intros n1 n2 n3 H; read_bytes; lia.
Qed.

(** [skip_spaces], one white-space character at a time. *)
Lemma skip_spaces_eq s :
  skip_spaces s = match after_space s with Some t => skip_spaces t | None => s end.
Proof.
  destruct s as [| c1 s1]; [reflexivity |]. cbn [skip_spaces after_space].
  destruct (is_space c1); [reflexivity |].
  destruct s1 as [| c2 s2]; [reflexivity |].
  destruct (is_space2 c1 c2); [reflexivity |].
  destruct s2 as [| c3 s3]; [reflexivity |].
  destruct (is_space3 c1 c2 c3); reflexivity.
Qed.

(** A white-space character and what stands behind it. *)
Lemma after_space_cases s t :
  after_space s = Some t ↔
  (∃ c, s = String c t ∧ is_space c = true)
  ∨ (∃ c1 c2, s = String c1 (String c2 t) ∧ is_space2 c1 c2 = true)
  ∨ (∃ c1 c2 c3, s = String c1 (String c2 (String c3 t)) ∧ is_space3 c1 c2 c3 = true).
Proof.
  split.
  - destruct s as [| c1 s1]; cbn [after_space]; [discriminate |].
    destruct (is_space c1) eqn:H1; [intros [= <-]; eauto |].
    destruct s1 as [| c2 s2]; [discriminate |].
    destruct (is_space2 c1 c2) eqn:H2; [intros [= <-]; eauto 6 |].
    destruct s2 as [| c3 s3]; [discriminate |].
    destruct (is_space3 c1 c2 c3) eqn:H3; [intros [= <-]; eauto 8 | discriminate].
  - intros [(c & -> & H) | [(c1 & c2 & -> & H) | (c1 & c2 & c3 & -> & H)]];
      cbn [after_space].
    + rewrite H. reflexivity.
    + rewrite (is_space2_lead _ _ H), H. reflexivity.
    + destruct (is_space3_lead _ _ _ H) as [-> ->]. rewrite H. reflexivity.
Qed.

Lemma after_space_shorter s t :
  after_space s = Some t → (String.length t < String.length s)%nat.
Proof.
  intros H. apply after_space_cases in H
    as [(c & -> & _) | [(c1 & c2 & -> & _) | (c1 & c2 & c3 & -> & _)]]; cbn; lia.
Qed.

(** Induction on a text, one white-space character or one byte at a
    time. *)
Lemma text_ind (P : string → Prop) :
  P EmptyString →
  (∀ s t, after_space s = Some t → P t → P s) →
  (∀ c s, after_space (String c s) = None → P s → P (String c s)) →
  ∀ s, P s.
Proof.
  intros Hnil Hspace Hbyte s.
  remember (String.length s) as n eqn:Hn.
  revert s Hn. induction n as [n IH] using lt_wf_ind. intros s ->.
  destruct s as [| c s]; [exact Hnil |].
  destruct (after_space (String c s)) as [t |] eqn:Ha.
  - apply (Hspace _ t Ha). apply (IH (String.length t)); [| reflexivity].
    apply after_space_shorter. exact Ha.
  - apply (Hbyte c s Ha). apply (IH (String.length s)); [cbn; lia | reflexivity].
Qed.

Lemma spaces_after s t : after_space s = Some t → spaces t → spaces s.
Proof.
  intros H Ht. apply after_space_cases in H
    as [(c & -> & H) | [(c1 & c2 & -> & H) | (c1 & c2 & c3 & -> & H)]].
  - apply spaces_1; assumption.
  - apply spaces_2; assumption.
  - apply spaces_3; assumption.
Qed.

Lemma spaces_app a b : spaces a → spaces b → spaces (a +:+ b).
Proof.
  intros Ha Hb. induction Ha; rewrite ?append_cons.
  - exact Hb.
  - apply spaces_1; assumption.
  - apply spaces_2; assumption.
  - apply spaces_3; assumption.
Qed.

Lemma skip_spaces_app a b : spaces a → skip_spaces (a +:+ b) = skip_spaces b.
Proof.
  intros Ha. induction Ha as [| c s H _ IH | c1 c2 s H _ IH | c1 c2 c3 s H _ IH].
  - reflexivity.
  - rewrite skip_spaces_eq.
    assert (after_space (String c s +:+ b) = Some (s +:+ b)) as ->; [| exact IH].
    apply after_space_cases. left. eauto.
  - rewrite skip_spaces_eq.
    assert (after_space (String c1 (String c2 s) +:+ b) = Some (s +:+ b)) as ->; [| exact IH].
    apply after_space_cases. right. left. eauto.
  - rewrite skip_spaces_eq.
    assert (after_space (String c1 (String c2 (String c3 s)) +:+ b) = Some (s +:+ b)) as ->;
      [| exact IH].
    apply after_space_cases. right. right. eauto 6.
Qed.

(** What [skip_spaces] drops is white space, and what it leaves does not
    start with any. *)
Lemma skip_spaces_splits s :
  ∃ pre, s = pre +:+ skip_spaces s ∧ spaces pre.
Proof.
  induction s as [| s t Ha (pre & Ht & Hpre) | c s Ha _] using text_ind.
  - exists EmptyString. split; [reflexivity | constructor].
  - rewrite skip_spaces_eq, Ha.
    apply after_space_cases in Ha
      as [(c & -> & H) | [(c1 & c2 & -> & H) | (c1 & c2 & c3 & -> & H)]].
    + exists (String c pre).
      split; [rewrite !append_cons; f_equal; exact Ht | apply spaces_1; assumption].
    + exists (String c1 (String c2 pre)).
      split; [rewrite !append_cons; do 2 f_equal; exact Ht | apply spaces_2; assumption].
    + exists (String c1 (String c2 (String c3 pre))).
      split; [rewrite !append_cons; do 3 f_equal; exact Ht | apply spaces_3; assumption].
  - rewrite skip_spaces_eq, Ha. exists EmptyString. split; [reflexivity | constructor].
Qed.

Lemma skip_spaces_start s : starts_space (skip_spaces s) = false.
Proof.
  induction s as [| s t Ha IH | c s Ha _] using text_ind.
  - reflexivity.
  - rewrite skip_spaces_eq, Ha. exact IH.
  - rewrite skip_spaces_eq, Ha. unfold starts_space. rewrite Ha. reflexivity.
Qed.

Lemma skip_spaces_fixed s : starts_space s = false → skip_spaces s = s.
Proof.
  unfold starts_space. intros H. rewrite skip_spaces_eq.
  destruct (after_space s); [discriminate | reflexivity].
Qed.

Lemma skip_spaces_empty s : skip_spaces s = EmptyString ↔ spaces s.
Proof.
  split.
  - intros H. destruct (skip_spaces_splits s) as (pre & Hs & Hpre).
    rewrite H, append_empty in Hs. rewrite Hs. exact Hpre.
  - intros H. induction H as [| c s H _ IH | c1 c2 s H _ IH | c1 c2 c3 s H _ IH].
    + reflexivity.
    + cbn [skip_spaces]. rewrite H. exact IH.
    + cbn [skip_spaces]. rewrite (is_space2_lead _ _ H), H. exact IH.
    + cbn [skip_spaces]. destruct (is_space3_lead _ _ _ H) as [-> ->]. rewrite H. exact IH.
Qed.

Lemma all_spaces s : all_chars is_space s = true → spaces s.
Proof.
  induction s as [| c s IH]; cbn [all_chars]; [constructor |].
  intros H. apply andb_prop in H as [Hc Hs]. apply spaces_1; auto.
Qed.

(** A white-space character at the start of a text is still there when
    the text goes on. *)
Lemma starts_space_app a b : starts_space a = true → starts_space (a +:+ b) = true.
Proof.
  unfold starts_space. destruct (after_space a) as [t |] eqn:Ha; [intros _ | discriminate].
  assert (after_space (a +:+ b) = Some (t +:+ b)) as ->; [| reflexivity].
  apply after_space_cases.
  apply after_space_cases in Ha
    as [(c & -> & H) | [(c1 & c2 & -> & H) | (c1 & c2 & c3 & -> & H)]];
    rewrite !append_cons; eauto 8.
Qed.

Lemma take_word_splits t :
  no_space_in (take_word t) = true
  ∧ ∃ post, t = take_word t +:+ post ∧ word_end post.
Proof.
  induction t as [| c t (Hw & post & Ht & Hpost)]; cbn [take_word].
  - split; [reflexivity |]. exists EmptyString. split; [reflexivity | left; reflexivity].
  - destruct (starts_space (String c t)) eqn:Hc.
    + split; [reflexivity |]. exists (String c t). split; [reflexivity | right; exact Hc].
    + split.
      * cbn [no_space_in]. rewrite Hw, andb_true_r. apply negb_true_iff.
        destruct (starts_space (String c (take_word t))) eqn:Hs; [| reflexivity].
        apply (starts_space_app _ post) in Hs. rewrite append_cons, <- Ht in Hs.
        congruence.
      * exists post. split; [| exact Hpost]. rewrite append_cons. f_equal. exact Ht.
Qed.

(** The first word of an output: it is not empty, holds no white space,
    stands after white space only and ends at the next white space or at
    the end of the output; there is none exactly when the output is all
    white space. *)
Lemma first_word_spec s :
  match first_word s with
  | Some h =>
      nonempty h = true ∧ no_space_in h = true
      ∧ ∃ pre post, s = pre +:+ h +:+ post ∧ spaces pre ∧ word_end post
  | None => spaces s
  end.
Proof.
  unfold first_word. destruct (skip_spaces_splits s) as (pre & Hs & Hpre).
  pose proof (skip_spaces_start s) as Hstart.
  destruct (skip_spaces s) as [| c t] eqn:Hskip.
  - apply skip_spaces_empty. exact Hskip.
  - destruct (take_word_splits (String c t)) as (Hw & post & Ht & Hpost).
    split; [cbn [take_word]; rewrite Hstart; reflexivity |].
    split; [exact Hw |].
    exists pre, post. split; [| auto]. rewrite Hs at 1. f_equal. exact Ht.
Qed.

(** The first byte of a white-space character is no later byte of
    one. *)
Lemma starts_space_lead post :
  starts_space post = true → ∃ c t, post = String c t ∧ lead_byte c = true.
Proof.
  unfold starts_space. destruct (after_space post) as [t |] eqn:Ha; [intros _ | discriminate].
  apply after_space_cases in Ha
    as [(c & -> & H) | [(c1 & c2 & -> & H) | (c1 & c2 & c3 & -> & H)]];
    eexists _, _; (split; [reflexivity |]); unfold lead_byte.
  - rewrite H. reflexivity.
  - unfold is_space2 in H. apply andb_prop in H as [H _]. rewrite H.
    rewrite !orb_true_r. reflexivity.
  - unfold is_space3 in H.
    repeat (apply orb_prop in H as [H | H]);
      repeat (apply andb_prop in H as [H ?]);
      rewrite H, ?orb_true_r; reflexivity.
Qed.

Lemma lead_not_second c1 c2 : lead_byte c2 = true → is_space2 c1 c2 = false.
Proof.
  intros H. destruct (is_space2 c1 c2) eqn:H2; [exfalso | reflexivity].
  apply is_space2_second in H2. congruence.
Qed.

Lemma lead_not_later c1 c2 c3 :
  lead_byte c2 = true ∨ lead_byte c3 = true → is_space3 c1 c2 c3 = false.
Proof.
  intros H. destruct (is_space3 c1 c2 c3) eqn:H3; [exfalso | reflexivity].
  apply is_space3_later in H3 as [H2 H3]. destruct H as [H | H]; congruence.
Qed.

(** White space does not come from putting a word and what follows it
    side by side. *)
Lemma no_straddle b post :
  nonempty b = true → starts_space b = false → word_end post →
  starts_space (b +:+ post) = false.
Proof.
  intros Hne Hb [-> | Hpost]; [rewrite append_empty; exact Hb |].
  apply starts_space_lead in Hpost as (p & t & -> & Hp).
  revert Hb. unfold starts_space.
  destruct b as [| c1 [| c2 [| c3 b3]]]; [discriminate Hne | | |];
    change (EmptyString +:+ String p t) with (String p t);
    rewrite ?append_cons;
    change (EmptyString +:+ String p t) with (String p t);
    cbn [after_space];
    (destruct (is_space c1); [discriminate |]).
  - intros _. rewrite (lead_not_second c1 p Hp).
    destruct t as [| c3 t]; [reflexivity |].
    rewrite (lead_not_later c1 p c3) by auto. reflexivity.
  - destruct (is_space2 c1 c2); [discriminate |]. intros _.
    rewrite (lead_not_later c1 c2 p) by auto. reflexivity.
  - destruct (is_space2 c1 c2); [discriminate |].
    destruct (is_space3 c1 c2 c3); [discriminate | reflexivity].
Qed.

Lemma take_word_app h post :
  no_space_in h = true → word_end post → take_word (h +:+ post) = h.
Proof.
  intros Hh Hpost. induction h as [| c h IH].
  - change (take_word post = EmptyString).
    destruct Hpost as [-> | Hpost]; [reflexivity |].
    destruct post as [| p t]; [reflexivity |]. cbn [take_word].
    rewrite Hpost. reflexivity.
  - cbn [no_space_in] in Hh. apply andb_prop in Hh as [Hc Hh].
    apply negb_true_iff in Hc.
    rewrite append_cons. cbn [take_word]. rewrite <- append_cons.
    rewrite (no_straddle (String c h) post eq_refl Hc Hpost).
    f_equal. apply IH. exact Hh.
Qed.

(** Only the first word reads so: a text that is not empty, holds no
    white space, stands after white space only and ends at white space or
    at the end of the output is the first word of the output. *)
Lemma first_word_unique pre h post :
  spaces pre → nonempty h = true → no_space_in h = true → word_end post →
  first_word (pre +:+ h +:+ post) = Some h.
Proof.
  intros Hpre Hne Hh Hpost. unfold first_word.
  rewrite (skip_spaces_app pre _ Hpre).
  assert (Hstart : starts_space (h +:+ post) = false).
  { apply no_straddle; [exact Hne | | exact Hpost].
    destruct h as [| c h]; [discriminate Hne |].
    cbn [no_space_in] in Hh. apply andb_prop in Hh as [Hc _].
    apply negb_true_iff in Hc. exact Hc. }
  rewrite (skip_spaces_fixed _ Hstart).
  destruct h as [| c h]; [discriminate Hne |].
  rewrite append_cons, <- append_cons. f_equal. apply take_word_app; assumption.
Qed.

(** X2. [get_file_hash] returns a hash exactly when [rclone hashsum] ends
    well and prints a word, and the hash is the first word of the output:
    it is not empty, holds no white space, only white space stands before
    it, and it ends at the next white space or at the end of the
    output. *)
Theorem get_file_hash_word E remote_path w h :
  (∃ w', get_file_hash E remote_path w = Done (Some h) w')
  ↔ ∃ pre post,
      rclone_hashsum E (trace w ++ [ELog DEBUG (HashStart remote_path)]) "md5" remote_path
        = Stdout (pre +:+ h +:+ post)
      ∧ spaces pre ∧ nonempty h = true ∧ no_space_in h = true ∧ word_end post.
Proof.
  unfold get_file_hash, bind, log, emit, call_hashsum, ret, raise. cbn [trace cache].
  split.
  - intros [w' Hrun]. revert Hrun.
    destruct (rclone_hashsum E _ _ _) as [out | rc err]; [| discriminate].
    destruct (nonempty out); [| discriminate].
    pose proof (first_word_spec out) as Hspec.
    destruct (first_word out) as [h' |]; [| discriminate].
    intros [= <- _]. destruct Hspec as (Hne & Hw & pre & post & -> & Hpre & Hpost).
    exists pre, post. auto.
  - intros (pre & post & -> & Hpre & Hne & Hw & Hpost).
    assert (nonempty (pre +:+ h +:+ post) = true) as ->.
    { destruct pre; [| reflexivity]. destruct h; [discriminate Hne | reflexivity]. }
    rewrite (first_word_unique pre h post Hpre Hne Hw Hpost). eauto.
Qed.

(** A no-break space before the hash and an em space behind it. *)
Lemma get_file_hash_word_witness :
  ∃ pre post,
    wide_hash "dst:m/B" = Stdout (pre +:+ "0f0f" +:+ post)
    ∧ spaces pre ∧ nonempty "0f0f" = true ∧ no_space_in "0f0f" = true ∧ word_end post.
Proof.
  apply (proj1 (get_file_hash_word wide "dst:m/B" fresh "0f0f")).
  eexists. vm_compute. reflexivity.
Defined.



(** ** Quota errors, whatever the case *)


Lemma lower_app a b : lower (a +:+ b) = lower a +:+ lower b.
Proof.
  induction a as [| c a IH]; [reflexivity |].
  change (String (lower_ascii c) (lower (a +:+ b))
          = String (lower_ascii c) (lower a +:+ lower b)).
  f_equal. exact IH.
Qed.

(** X4. A keyword, in any mix of upper and lower case, anywhere in the error
    text makes it a quota error. *)
Theorem quota_keyword_any_case k k' pre post :
  In k keywords → lower k' = lower k →
  is_quota_exceeded (pre +:+ k' +:+ post) = true.
Proof.
  intros Hk Hcase. apply is_quota_exceeded_iff. exists k. split; [exact Hk |].
  exists (lower pre), (lower post). rewrite !lower_app, Hcase. reflexivity.
Qed.

Lemma quota_keyword_any_case_witness :
  is_quota_exceeded "Exit code 1: USERRATELIMITEXCEEDED (retry later)" = true.
Proof.
  apply (quota_keyword_any_case "userRateLimitExceeded" "USERRATELIMITEXCEEDED"
           "Exit code 1: " " (retry later)").
  - cbn. tauto.
  - reflexivity.
Defined.


(** ** The command line *)

Lemma split_on_cons sep s : ∃ part parts, split_on sep s = part :: parts.
Proof.
  destruct s as [| c s]; cbn [split_on]; [eauto |].
  destruct (Ascii.eqb c sep); [eauto |]. destruct (split_on sep s); eauto.
Qed.

Lemma split_on_length sep s : List.length (split_on sep s) = S (count_char sep s).
Proof.
  induction s as [| c s IH]; cbn [split_on count_char]; [reflexivity |].
  destruct (Ascii.eqb c sep); cbn [List.length]; [rewrite IH; reflexivity |].
  destruct (split_on sep s); cbn [List.length] in *; [discriminate IH | exact IH].
Qed.

(** The parts of a split: the first is what stands before the first
    separator, the others are the parts of what stands behind it. *)
Lemma split_on_first sep s :
  split_on sep s
  = before sep s :: (if Nat.eqb (count_char sep s) 0 then [] else split_on sep (behind sep s)).
Proof.
  induction s as [| c s IH]; cbn [split_on before behind count_char]; [reflexivity |].
  destruct (Ascii.eqb c sep); [reflexivity |].
  rewrite IH. reflexivity.
Qed.

Lemma split_on_two sep s :
  split_on sep s
  = if Nat.eqb (count_char sep s) 1
    then [before sep s; behind sep s]
    else split_on sep s.
Proof.
  destruct (Nat.eqb (count_char sep s) 1) eqn:H1; [| reflexivity].
  apply Nat.eqb_eq in H1. rewrite split_on_first, H1. cbn [Nat.eqb]. f_equal.
  assert (H0 : count_char sep (behind sep s) = 0%nat).
  { clear -H1. induction s as [| c s IH]; cbn [count_char behind] in *; [discriminate |].
    destruct (Ascii.eqb c sep); [| apply IH; exact H1]. cbn in H1. lia. }
  rewrite split_on_first, H0. cbn [Nat.eqb]. f_equal.
  clear -H0. induction (behind sep s) as [| c t IH]; cbn [before count_char] in *; [reflexivity |].
  destruct (Ascii.eqb c sep); [discriminate H0 |]. f_equal. apply IH. exact H0.
Qed.

Lemma parse_transfers_filter transfer_args :
  parse_transfers transfer_args
  = (map pair_of (List.filter one_comma transfer_args),
     List.filter (fun t => negb (one_comma t)) transfer_args).
Proof.
  induction transfer_args as [| t rest IH]; cbn [parse_transfers List.filter map];
    [reflexivity |].
  rewrite IH.
  pose proof (split_on_length "," t) as Hlen.
  destruct (one_comma t) eqn:H1; unfold one_comma in H1; cbn [negb map].
  { rewrite (split_on_two "," t), H1. reflexivity. }
  apply Nat.eqb_neq in H1.
  destruct (split_on "," t) as [| a [| b [| c l]]]; cbn [List.length] in Hlen;
    try reflexivity.
  exfalso. lia.
Qed.

(** X5. [parse_transfers] keeps exactly the arguments with one comma, in
    their order, each as the pair of what stands before and behind the
    comma, stripped; it reports exactly the others. *)
Theorem parse_transfers_partition transfer_args :
  parse_transfers transfer_args
  = (map pair_of (List.filter one_comma transfer_args),
     List.filter (fun t => negb (one_comma t)) transfer_args).
Proof. apply parse_transfers_filter. Qed.

(** What [rstrip] drops is white space. *)
Lemma rstrip_splits s : ∃ tl, s = rstrip s +:+ tl ∧ spaces tl.
Proof.
  induction s as [| c s (tl & Hs & Htl)]; cbn [rstrip].
  - exists EmptyString. split; [reflexivity | constructor].
  - destruct (skip_spaces (String c s)) as [| a t] eqn:Hskip; cbn [nonempty].
    + exists (String c s). split; [reflexivity |]. apply skip_spaces_empty. exact Hskip.
    + exists tl. split; [| exact Htl]. rewrite append_cons. f_equal. exact Hs.
Qed.

Lemma rstrip_keeps s :
  nonempty (skip_spaces s) = true → nonempty (skip_spaces (rstrip s)) = true.
Proof.
  intros Hs. destruct (skip_spaces (rstrip s)) as [| a t] eqn:Hr; [exfalso | reflexivity].
  destruct (rstrip_splits s) as (tl & Heq & Htl).
  apply skip_spaces_empty in Hr.
  pose proof (spaces_app _ _ Hr Htl) as Hall. rewrite <- Heq in Hall.
  apply skip_spaces_empty in Hall. rewrite Hall in Hs. discriminate Hs.
Qed.

Lemma rstrip_idem s : rstrip (rstrip s) = rstrip s.
Proof.
  induction s as [| c s IH]; [reflexivity |].
  pose proof (rstrip_keeps (String c s)) as Hkeep. cbn [rstrip] in Hkeep |- *.
  destruct (nonempty (skip_spaces (String c s))); [| reflexivity].
  cbn [rstrip]. rewrite (Hkeep eq_refl), IH. reflexivity.
Qed.

Lemma rstrip_start s : starts_space s = false → starts_space (rstrip s) = false.
Proof.
  intros Hs. destruct (starts_space (rstrip s)) eqn:Hr; [exfalso | reflexivity].
  destruct (rstrip_splits s) as (tl & Heq & _).
  apply (starts_space_app _ tl) in Hr. rewrite <- Heq in Hr. congruence.
Qed.

(** What [strip] returns neither starts nor ends with white space. *)
Lemma strip_trimmed s : trimmed (strip s).
Proof.
  unfold trimmed, strip. split; [| apply rstrip_idem].
  apply skip_spaces_fixed, rstrip_start, skip_spaces_start.
Qed.

(** White space of one, two and three bytes is stripped; the space inside
    stays. *)
Example strip_wide : strip (" " +:+ nbsp +:+ "a b" +:+ em_space +:+ nbsp) = "a b".
Proof. vm_compute. reflexivity. Qed.

(** X6. The source and the destination of every pair that
    [parse_transfers] keeps neither start nor end with white space. *)
Theorem parse_transfers_pairs_trimmed transfer_args :
  Forall (fun p => trimmed p.1 ∧ trimmed p.2) (parse_transfers transfer_args).1.
Proof.
  rewrite parse_transfers_filter. cbn [fst].
  induction (List.filter one_comma transfer_args) as [| t l IH]; cbn [map]; constructor.
  - unfold pair_of. cbn [fst snd]. split; apply strip_trimmed.
  - exact IH.
Qed.

(** X7. When no argument has exactly one comma nothing is kept, and the run
    on what is kept reports that there is no valid pair and ends with the
    totals at zero, without any call of the tool. *)
Theorem no_valid_pairs E transfer_args w :
  Forall (fun t => count_char "," t ≠ 1%nat) transfer_args →
  (parse_transfers transfer_args).1 = []
  ∧ (parse_transfers transfer_args).2 = transfer_args
  ∧ sync_files E (parse_transfers transfer_args).1 w
    = Done no_budget
        (after w [ELog INFO (StopAt (at_23 (clock E (trace w)))); ELog ERROR NoValidPairs]).
Proof.
  intros Hall. rewrite parse_transfers_filter. cbn [fst snd].
  assert (Hboth : List.filter one_comma transfer_args = []
                  ∧ List.filter (fun t => negb (one_comma t)) transfer_args = transfer_args).
  { induction Hall as [| t l Ht _ [IH1 IH2]]; [split; reflexivity |]. cbn [List.filter].
    destruct (one_comma t) eqn:H1.
    - unfold one_comma in H1. apply Nat.eqb_eq in H1. contradiction.
    - cbn [negb]. rewrite IH2. auto. }
  destruct Hboth as [Hnone Hrep].
  rewrite Hnone, Hrep. cbn [map]. split; [reflexivity |]. split; [reflexivity |].
  unfold sync_files, bind, now, log, emit, ret, after. cbn. rewrite <- app_assoc. reflexivity.
Qed.

Lemma no_valid_pairs_witness :
  (parse_transfers ["src:m;dst:m"; "a,b,c"]).1 = []
  ∧ (parse_transfers ["src:m;dst:m"; "a,b,c"]).2 = ["src:m;dst:m"; "a,b,c"].
Proof.
  destruct (no_valid_pairs healthy ["src:m;dst:m"; "a,b,c"] fresh) as (H1 & H2 & _).
  - repeat constructor; cbn; lia.
  - split; [exact H1 | exact H2].
Defined.

(** ** The names of the cache files *)


Lemma append_length a b : String.length (a +:+ b) = (String.length a + String.length b)%nat.
Proof.
  induction a as [| c a IH]; [reflexivity |].
  rewrite append_cons. cbn [String.length]. rewrite IH. reflexivity.
Qed.

Lemma append_inj_r a x y : x +:+ a = y +:+ a → x = y.
Proof.
  revert y. induction x as [| c x IH]; intros [| d y] H.
  - reflexivity.
  - apply (f_equal String.length) in H. rewrite !append_length in H.
    cbn [String.length] in H. lia.
  - apply (f_equal String.length) in H. rewrite !append_length in H.
    cbn [String.length] in H. lia.
  - rewrite !append_cons in H. injection H as -> H. f_equal. apply IH. exact H.
Qed.

Lemma append_inj_l a x y : a +:+ x = a +:+ y → x = y.
Proof.
  induction a as [| c a IH]; intros H; [exact H |].
  rewrite !append_cons in H. injection H as H. auto.
Qed.

(** X8. Two snapshot artifacts of one remote tree have the same name only for
    the same role and the same day stamp: the source and the destination
    listing of a tree never share an artifact, nor do two days. *)
Theorem snapshot_file_injective E remote_path is_source is_source' today today' :
  snapshot_file E remote_path is_source today = snapshot_file E remote_path is_source' today' →
  is_source = is_source' ∧ today = today'.
Proof.
  unfold snapshot_file. intros H.
  do 4 apply append_inj_l in H.
  destruct is_source, is_source'; try discriminate H.
  - split; [reflexivity |]. apply (append_inj_l "source_") in H.
    apply append_inj_r in H. exact H.
  - split; [reflexivity |]. apply (append_inj_l "dest_") in H.
    apply append_inj_r in H. exact H.
Qed.

Lemma snapshot_file_injective_witness : true = true ∧ "0" = "0".
Proof.
  apply (snapshot_file_injective healthy "src:m" true true "0" "0"). reflexivity.
Defined.

(** ** The snapshot cache, call after call *)

Lemma check_remote_exists_cache E p w :
  cache (world_of (check_remote_exists E p w)) = cache w.
Proof.
  unfold check_remote_exists, bind, log, emit, call_ls, ret. cbn.
  destruct (rclone_ls E _ _ _ _); reflexivity.
Qed.

Lemma check_remote_exists_done E p w :
  ∃ ex w', check_remote_exists E p w = Done ex w' ∧ cache w' = cache w.
Proof.
  pose proof (check_remote_exists_cache E p w) as Hc.
  destruct (footprint_returns _ _ _ w (check_remote_exists_quiet E p)) as (ex & w' & Hr).
  rewrite Hr in Hc. eauto.
Qed.

(** All the ways in which [get_cached_files] ends. *)
Lemma get_cached_files_cases E remote_path is_source w :
  let cache_file :=
    snapshot_file E remote_path is_source (strftime_ymd E (clock E (trace w))) in
  ∃ files w',
    get_cached_files E remote_path is_source w = Done files w'
    ∧ ((cache w !! cache_file = Some files ∧ cache w' = cache w)
       ∨ (cache w !! cache_file = None ∧ files = [] ∧ cache w' = cache w)
       ∨ (cache w !! cache_file = None ∧ cache w' = <[cache_file := files]> (cache w)
          ∧ (files = [] ∨ ∃ tr items, rclone_ls E tr remote_path (Some 9999) ["--hash"] = Some items
                                      ∧ files = List.filter not_dir items))).
Proof.
  intros cache_file. unfold get_cached_files.
  unfold bind at 1. cbn [now]. unfold bind at 1. cbn [read_cache]. fold cache_file.
  destruct (cache w !! cache_file) as [cached |] eqn:Hc.
  - unfold bind, log, emit, ret. eexists _, _. split; [reflexivity |]. left. auto.
  - destruct (check_remote_exists_done E remote_path w) as (ex & w1 & Hex & Hc1).
    rewrite (bind_done _ _ _ _ _ Hex). destruct ex; cbn [negb].
    + unfold bind, log, emit, call_ls, write_cache, ret. cbn [trace cache].
      destruct (rclone_ls E _ remote_path (Some 9999) ["--hash"]) as [items |] eqn:Hls.
      * eexists _, _. split; [reflexivity |]. right. right. cbn [cache]. rewrite Hc1.
        split; [reflexivity |]. split; [reflexivity |]. right. eauto.
      * eexists _, _. split; [reflexivity |]. right. left. cbn [cache]. auto.
    + destruct is_source; unfold bind, log, emit, write_cache, ret; cbn [trace cache];
        eexists _, _; (split; [reflexivity |]); right.
      * left. cbn [cache]. auto.
      * right. cbn [cache]. rewrite Hc1. auto.
Qed.

(** X9. [get_cached_files] never overwrites and never removes an artifact of
    the cache: what was cached before the call is cached after it. *)
Theorem snapshot_cache_grows E remote_path is_source w k v :
  cache w !! k = Some v →
  cache (world_of (get_cached_files E remote_path is_source w)) !! k = Some v.
Proof.
  intros Hk.
  destruct (get_cached_files_cases E remote_path is_source w)
    as (files & w' & -> & [[_ Hc] | [(_ & _ & Hc) | (Hmiss & Hc & _)]]);
    cbn [world_of]; rewrite Hc; [exact Hk | exact Hk |].
  rewrite lookup_insert_ne; [exact Hk |]. intros <-. congruence.
Qed.

Lemma snapshot_cache_grows_witness :
  cache (world_of (get_cached_files healthy "dst:m" false
                     (world_of (get_cached_files healthy "src:m" true fresh))))
    !! "cache/src:m_source_0.json" = Some src_tree.
Proof.
  apply snapshot_cache_grows. vm_compute. reflexivity.
Defined.

(** X10. A listing that is not empty is listed once a day: the next call for
    the same tree and role on the same day returns it from the cache, and
    only logs. *)
Theorem snapshot_reused E remote_path is_source w files w1 :
  get_cached_files E remote_path is_source w = Done files w1 →
  files ≠ [] →
  strftime_ymd E (clock E (trace w1)) = strftime_ymd E (clock E (trace w)) →
  get_cached_files E remote_path is_source w1
  = Done files
      (after w1 [ELog INFO (CacheHit (snapshot_file E remote_path is_source
                                        (strftime_ymd E (clock E (trace w)))))]).
Proof.
  intros Hfirst Hne Hday.
  assert (Hcached : cache w1 !! snapshot_file E remote_path is_source
                                  (strftime_ymd E (clock E (trace w))) = Some files).
  { destruct (get_cached_files_cases E remote_path is_source w)
      as (files' & w' & Hrun & Hcases).
    rewrite Hfirst in Hrun. injection Hrun as <- <-.
    destruct Hcases as [[Hhit Hc] | [(_ & Hnil & _) | (_ & Hc & _)]].
    - rewrite Hc. exact Hhit.
    - contradiction.
    - rewrite Hc. apply lookup_insert_eq. }
  unfold get_cached_files.
  unfold bind at 1. cbn [now]. unfold bind at 1. cbn [read_cache].
  rewrite Hday, Hcached. reflexivity.
Qed.

Lemma snapshot_reused_witness :
  listings (trace (world_of (get_cached_files healthy "src:m" true
                               (world_of (get_cached_files healthy "src:m" true fresh)))))
  = listings (trace (world_of (get_cached_files healthy "src:m" true fresh))).
Proof.
  erewrite (snapshot_reused healthy "src:m" true fresh src_tree).
  - vm_compute. reflexivity.
  - vm_compute. reflexivity.
  - discriminate.
  - reflexivity.
Defined.

(** X11. On a cache miss the snapshot holds no directory. *)
Theorem snapshot_has_no_dirs E remote_path is_source w files w1 :
  cache w !! snapshot_file E remote_path is_source (strftime_ymd E (clock E (trace w))) = None →
  get_cached_files E remote_path is_source w = Done files w1 →
  Forall (fun f => IsDir f ≠ Some true) files.
Proof.
  intros Hmiss Hrun.
  destruct (get_cached_files_cases E remote_path is_source w)
    as (files' & w' & Hrun' & Hcases).
  rewrite Hrun in Hrun'. injection Hrun' as <- <-.
  destruct Hcases as [[Hhit _] | [(_ & -> & _) | (_ & _ & [-> | (tr & items & _ & ->)])]];
    [congruence | constructor | constructor |].
  apply List.Forall_forall. intros f Hf. apply filter_In in Hf as [_ Hf].
  unfold not_dir in Hf. intros Hdir. rewrite Hdir in Hf. discriminate Hf.
Qed.

Lemma snapshot_has_no_dirs_witness :
  Forall (fun f => IsDir f ≠ Some true) [entry "A" 10 "h1"].
Proof.
  eapply (snapshot_has_no_dirs with_dir "src:m" true fresh).
  - vm_compute. reflexivity.
  - vm_compute. reflexivity.
Defined.

(** ** A listing error and the plan of the day *)

(** X12. The source tree answers the probe but its full listing fails, and
    nothing is cached yet.  [get_files_to_copy] then returns the empty plan
    and writes it to the cache: for the rest of the day every call for
    this source gets the empty plan from the cache, whatever the tree
    holds. *)
Theorem listing_error_caches_empty_plan E source destination w :
  (∀ tr, rclone_ls E tr source (Some 1) [] ≠ None) →
  (∀ tr, rclone_ls E tr source (Some 9999) ["--hash"] = None) →
  cache w !! plan_file E source (strftime_ymd E (clock E (trace w))) = None →
  cache w !! snapshot_file E source true (strftime_ymd E (clock E (trace w))) = None →
  ∃ w', get_files_to_copy E source destination w = Done [] w'
        ∧ cache w' !! plan_file E source (strftime_ymd E (clock E (trace w))) = Some [].
Proof.
  intros Hprobe Hlist Hplan Hsnap.
  assert (Hex : ∀ w0, ∃ w1, check_remote_exists E source w0 = Done true w1).
  { intros w0.
    destruct (rclone_ls E (trace w0 ++ [ELog DEBUG (ProbeStart source)]) source (Some 1) [])
      as [items |] eqn:Hls; [| exfalso; exact (Hprobe _ Hls)].
    rewrite (check_remote_exists_ok E source w0 items Hls). eauto. }
  assert (Hsrc : ∃ w1, get_cached_files E source true w = Done [] w1).
  { unfold get_cached_files.
    unfold bind at 1. cbn [now]. unfold bind at 1. cbn [read_cache]. rewrite Hsnap.
    destruct (Hex w) as [w1 Hw1]. rewrite (bind_done _ _ _ _ _ Hw1). cbn [negb].
    unfold bind, log, emit, call_ls, ret. cbn [trace cache]. rewrite Hlist. eauto. }
  destruct Hsrc as [w1 Hsrc].
  unfold get_files_to_copy.
  unfold bind at 1. cbn [now]. unfold bind at 1. cbn [read_cache]. rewrite Hplan.
  rewrite (bind_done _ _ _ _ _ Hsrc). cbn [is_nil].
  destruct (Hex w1) as [w2 Hw2].
  unfold bind at 1. rewrite (bind_done _ _ _ _ _ Hw2). cbn [ret negb].
  destruct (footprint_returns _ _ _ w2 (get_cached_files_quiet E destination false))
    as (D & w3 & Hdst).
  rewrite (bind_done _ _ _ _ _ Hdst). cbn [diff_loop].
  unfold bind, write_cache, ret. eexists. split; [reflexivity |].
  cbn [cache]. apply lookup_insert_eq.
Qed.

Lemma listing_error_caches_empty_plan_witness :
  ∃ w', get_files_to_copy flaky "src:m" "dst:m" fresh = Done [] w'
        ∧ cache w' !! plan_file flaky "src:m" (strftime_ymd flaky (clock flaky (trace fresh)))
          = Some [].
Proof.
  apply (listing_error_caches_empty_plan flaky "src:m" "dst:m" fresh).
  - intros tr. discriminate.
  - intros tr. reflexivity.
  - reflexivity.
  - reflexivity.
Defined.

(** ** More on the Diff Engine *)

(** X15. When a path occurs more than once in the destination listing, the
    dictionary of [get_files_to_copy] holds its last entry. *)
Theorem index_by_path_last dest_files p :
  index_by_path dest_files !! p
  = List.find (fun d => String.eqb (Path d) p) (rev dest_files).
Proof.
  induction dest_files as [| x D IH] using rev_ind; [reflexivity |].
  rewrite index_by_path_snoc, rev_app_distr. cbn [rev app List.find].
  destruct (String.eqb_spec (Path x) p) as [Heq | Hne].
  - subst p. apply lookup_insert_eq.
  - rewrite lookup_insert_ne by exact Hne. exact IH.
Qed.

(** X16. The deletions that the diff sends are exactly those of the stale
    entries, each at its path under the destination, in the order of the
    source; every entry whose destination file is deleted is in the plan
    that the diff returns. *)
Theorem diff_deletes_planned E destination dict S w :
  deletes (trace (world_of (diff_loop E destination dict S [] w)))
  = deletes (trace w)
    ++ map (fun e => EDelete (destination +:+ "/" +:+ Path e))
           (List.filter (loop_stale dict) S)
  ∧ ∃ plan, value_of (diff_loop E destination dict S [] w) = Some plan
            ∧ ∀ e, In e (List.filter (loop_stale dict) S) → In e plan.
Proof.
  split; [apply diff_loop_deletes |].
  rewrite diff_loop_extends. eexists. split; [reflexivity |].
  intros e He. apply filter_In in He as [HS Hst]. cbn [app].
  apply filter_In. split; [exact HS | apply loop_stale_keeps; exact Hst].
Qed.

Lemma filter_none {A} (f : A → bool) l :
  (∀ x, In x l → f x = false) → List.filter f l = [].
Proof.
  induction l as [| x l IH]; intros Hf; [reflexivity |].
  cbn [List.filter]. rewrite (Hf x (or_introl eq_refl)). apply IH.
  intros y Hy. apply Hf. right. exact Hy.
Qed.

(** X17. A tree compared with its own listing needs nothing: the plan is empty
    and no deletion is sent. *)
Theorem diff_self_empty E destination S w :
  List.NoDup (map Path S) →
  value_of (diff_loop E destination (index_by_path S) S [] w) = Some []
  ∧ deletes (trace (world_of (diff_loop E destination (index_by_path S) S [] w)))
    = deletes (trace w).
Proof.
  intros Hnd.
  assert (Hall : ∀ e, In e S → loop_keeps (index_by_path S) e = false).
  { intros e He. unfold loop_keeps. rewrite (index_by_path_lookup S (Path e) Hnd).
    assert (entry_at S (Path e) = Some e) as ->.
    { clear -Hnd He. induction S as [| x S IH]; [destruct He |].
      cbn [map] in Hnd. apply NoDup_cons_iff in Hnd as [Hx Hnd].
      unfold entry_at. cbn [List.find]. destruct He as [-> | He].
      - rewrite String.eqb_refl. reflexivity.
      - destruct (String.eqb_spec (Path x) (Path e)) as [Heq | _].
        + exfalso. apply Hx. rewrite Heq. apply in_map. exact He.
        + apply IH; assumption. }
    rewrite String.eqb_refl. cbn [negb]. apply andb_false_r. }
  assert (Hnone : List.filter (loop_keeps (index_by_path S)) S = [])
    by (apply filter_none; exact Hall).
  split.
  - rewrite diff_loop_extends, Hnone. reflexivity.
  - rewrite diff_loop_deletes.
    assert (List.filter (loop_stale (index_by_path S)) S = []) as ->; [| apply app_nil_r].
    destruct (List.filter (loop_stale (index_by_path S)) S) as [| e l] eqn:Hst; [reflexivity |].
    assert (He : In e (List.filter (loop_stale (index_by_path S)) S)) by (rewrite Hst; left; reflexivity).
    apply filter_In in He as [HS Hs]. apply loop_stale_keeps in Hs.
    assert (In e (List.filter (loop_keeps (index_by_path S)) S)) as Hin
      by (apply filter_In; auto).
    rewrite Hnone in Hin. destruct Hin.
Qed.

Lemma diff_self_empty_witness :
  value_of (diff_loop healthy "dst:m" (index_by_path src_tree) src_tree [] fresh) = Some [].
Proof.
  apply (diff_self_empty healthy "dst:m" src_tree fresh).
  repeat constructor; cbn; intuition discriminate.
Defined.

(** ** The low-space threshold *)

Lemma percent_of_nothing free total :
  total <= 0 ∨ free = 0 →
  percent_of free total = 0%Q ∧ division_overflows free total = false.
Proof.
  unfold percent_of, division_overflows.
  intros [Hle | ->].
  - destruct (Z.ltb_spec 0 total); [lia | split; reflexivity].
  - destruct total; split; reflexivity.
Qed.

(** X18. With the byte counts that [rclone about] reports, the pair is
    skipped for low space when the total is not positive (the division is
    not made and the percentage is 0) or when no byte is free: only the
    [rclone about] call and one record of level ERROR are added.  The
    percentage is otherwise the one of binary64, with its two roundings:
    for 10^15 free bytes of 5 * 10^16 + 1 it is exactly 2, which is not
    below the threshold. *)
Theorem low_space_in_bytes E stop_time source destination b w total free :
  contains ":" destination = true →
  rclone_about E (trace w) (before ":" destination +:+ ":") = AboutData (Num total) (Num free) →
  total <= 0 ∨ free = 0 →
  sync_pair E stop_time (source, destination) b w
  = Done (b, Continue)
      (after w [EAbout (before ":" destination +:+ ":"); ELog ERROR (LowSpace destination)])
  ∧ (percent_of 1000000000000000 50000000000000001 == 2)%Q
  ∧ Qltb (percent_of 1000000000000000 50000000000000001) 2 = false.
Proof.
  intros Hcolon Habout Hlow.
  destruct (percent_of_nothing free total Hlow) as [Hzero Hdiv].
  split; [| split; vm_compute; reflexivity].
  unfold sync_pair. cbn [fst snd].
  rewrite (bind_done _ _ _ _ _ (capacity_reading E destination w total free Hcolon Habout Hdiv)).
  unfold bind at 1. cbn [unpack3 ret negb]. rewrite Hzero.
  change (Qltb 0 2) with true. cbv iota.
  unfold bind, log, emit, ret, after. cbn [trace cache]. rewrite <- app_assoc. reflexivity.
Qed.

Lemma low_space_in_bytes_witness :
  sync_pair no_total noon ("src:m", "dst:m") no_budget fresh
  = Done (no_budget, Continue)
      {| trace := [EAbout "dst:"; ELog ERROR (LowSpace "dst:m")]; cache := ∅ |}.
Proof.
  apply (low_space_in_bytes no_total noon "src:m" "dst:m" no_budget fresh 0 1000).
  - reflexivity.
  - reflexivity.
  - left. lia.
Defined.

(** ** The other ways out of the body for one file *)

(** X19. The volume cap is reached: the run is left at once, the rest of the
    plan is not looked at and nothing is asked of the tool. *)
Theorem volume_cap_stops_plan E source destination free_space stop_time file rest b w :
  clock E (trace w) < stop_time →
  MAX_TRANSFER_GB * 1024 ^ 3 <= total_size_copied b →
  sync_plan E source destination free_space stop_time (file :: rest) b w
  = Done (b, Return)
      (after w [ELog INFO (SizeSoFar (total_size_copied b)); ELog INFO VolumeCap]).
Proof.
  intros Htime Hcap. apply sync_plan_return.
  unfold sync_file. unfold bind at 1. cbn [now].
  destruct (Z.leb_spec stop_time (clock E (trace w))) as [Hle | _]; [lia |].
  unfold bind at 1. cbn [log emit].
  destruct (Z.leb_spec (MAX_TRANSFER_GB * 1024 ^ 3) (total_size_copied b)) as [_ | Hlt]; [| lia].
  unfold bind, log, emit, ret, after. cbn [trace cache]. rewrite <- app_assoc. reflexivity.
Qed.

Lemma volume_cap_stops_plan_witness :
  sync_plan healthy "src:m" "dst:m" 1000 (at_23 noon) [entry "B" 20 "h2"; entry "C" 30 "h3"]
    {| total_copied := 7; total_size_copied := 500 * 1024 ^ 3 |} fresh
  = Done ({| total_copied := 7; total_size_copied := 500 * 1024 ^ 3 |}, Return)
      {| trace := [ELog INFO (SizeSoFar (500 * 1024 ^ 3)); ELog INFO VolumeCap]; cache := ∅ |}.
Proof.
  apply (volume_cap_stops_plan healthy "src:m" "dst:m" 1000 (at_23 noon)
           (entry "B" 20 "h2") [entry "C" 30 "h3"]
           {| total_copied := 7; total_size_copied := 500 * 1024 ^ 3 |} fresh).
  - reflexivity.
  - cbn. discriminate.
Defined.

(** X20. A planned file that the source no longer lists, or whose listing
    fails, is skipped: the listing is the only call of the tool, nothing
    is copied and the totals are unchanged. *)
Theorem vanished_source_skipped E source destination free_space stop_time file b w :
  clock E (trace w) < stop_time →
  total_size_copied b < MAX_TRANSFER_GB * 1024 ^ 3 →
  total_size_copied b + default 0 (Size file) <= free_space →
  let src_path := source +:+ "/" +:+ Path file in
  let listing :=
    rclone_ls E (trace w ++ [ELog INFO (SizeSoFar (total_size_copied b));
                             ELog INFO (SpaceOk (Path file))]) src_path None [] in
  listing = None ∨ listing = Some [] →
  sync_file E source destination free_space stop_time file b w
  = Done (b, Continue)
      (after w [ELog INFO (SizeSoFar (total_size_copied b)); ELog INFO (SpaceOk (Path file));
                ELs src_path None [];
                ELog ERROR (match listing with
                            | None => SourceCheckError src_path
                            | Some _ => SourceFileMissing src_path
                            end)]).
Proof.
  intros Htime Hcap Hspace src_path listing Hgone.
  unfold sync_file. unfold bind at 1. cbn [now].
  destruct (Z.leb_spec stop_time (clock E (trace w))) as [Hle | _]; [lia |].
  unfold bind at 1. cbn [log emit].
  destruct (Z.leb_spec (MAX_TRANSFER_GB * 1024 ^ 3) (total_size_copied b)) as [Hle | _]; [lia |].
  destruct (Z.ltb_spec free_space (total_size_copied b + default 0 (Size file))) as [Hlt | _]; [lia |].
  unfold bind, log, emit, call_ls, ret, after. cbn [trace cache].
  rewrite <- app_assoc. cbn [app]. fold src_path. fold listing.
  destruct Hgone as [-> | ->]; cbn [is_nil trace cache];
    rewrite <- !app_assoc; reflexivity.
Qed.

Lemma vanished_source_skipped_witness :
  sync_file vanished "src:m" "dst:m" 1000 (at_23 noon) (entry "B" 20 "h2") no_budget fresh
  = Done (no_budget, Continue)
      {| trace := [ELog INFO (SizeSoFar 0); ELog INFO (SpaceOk "B");
                   ELs "src:m/B" None []; ELog ERROR (SourceFileMissing "src:m/B")];
         cache := ∅ |}.
Proof.
  apply (vanished_source_skipped vanished "src:m" "dst:m" 1000 (at_23 noon)
           (entry "B" 20 "h2") no_budget fresh).
  - reflexivity.
  - reflexivity.
  - cbn. discriminate.
  - right. reflexivity.
Defined.

(** ** How much a plan can cost *)

Lemma bounded_ret {A} (a : A) : bounded 0 0 (ret a).
Proof. intros w. exists []. cbn. rewrite app_nil_r. auto. Qed.

Lemma bounded_raise {A} e : bounded 0 0 (@raise A e).
Proof. intros w. exists []. cbn. rewrite app_nil_r. auto. Qed.

Lemma bounded_weaken {A} c' d' c d (m : M A) :
  bounded c' d' m → (c' <= c)%nat → (d' <= d)%nat → bounded c d m.
Proof.
  intros Hm Hc Hd w. destruct (Hm w) as (evs & Ht & H1 & H2).
  exists evs. split; [exact Ht | split; lia].
Qed.

Lemma bounded_bind {A B} c1 d1 c d (m : M A) (k : A → M B) :
  bounded c1 d1 m →
  (∀ a, bounded (c - c1) (d - d1) (k a)) →
  (c1 <= c)%nat → (d1 <= d)%nat →
  bounded c d (bind m k).
Proof.
  intros Hm Hk Hc Hd w. unfold bind.
  destruct (Hm w) as (evs & Ht & H1 & H2).
  destruct (m w) as [a w1 | e w1]; cbn [world_of] in *.
  - destruct (Hk a w1) as (evs' & Ht' & H1' & H2').
    exists (evs ++ evs'). rewrite Ht', Ht, app_assoc, copies_app, deletes_app, !length_app.
    split; [reflexivity | split; lia].
  - exists evs. split; [exact Ht | split; lia].
Qed.

Lemma bounded_log lvl msg : bounded 0 0 (log lvl msg).
Proof. intros w. exists [ELog lvl msg]. cbn. auto. Qed.

Lemma bounded_now E : bounded 0 0 (now E).
Proof. intros w. exists []. cbn. rewrite app_nil_r. auto. Qed.

Lemma bounded_call_ls E p d a : bounded 0 0 (call_ls E p d a).
Proof. intros w. exists [ELs p d a]. cbn. auto. Qed.

Lemma bounded_call_hashsum E a p : bounded 0 0 (call_hashsum E a p).
Proof. intros w. exists [EHashsum a p]. cbn. auto. Qed.

Lemma bounded_call_copyto E s d : bounded 1 0 (call_copyto E s d).
Proof. intros w. exists [ECopyto s d]. cbn. auto. Qed.

Lemma bounded_call_delete E p : bounded 0 1 (call_delete E p).
Proof. intros w. exists [EDelete p]. cbn. auto. Qed.

Create HintDb bounds.

#[export] Hint Resolve bounded_ret bounded_raise bounded_log bounded_now bounded_call_ls
  bounded_call_hashsum bounded_call_copyto bounded_call_delete : bounds.

Ltac bounded_step :=
  lazymatch goal with
  | |- bounded _ _ (bind _ _) =>
      eapply bounded_bind; [solve [eauto 1 with bounds] | intros ? | cbn; lia | cbn; lia]
  | |- bounded _ _ (match ?x with _ => _ end) => destruct x
  | |- bounded _ _ _ =>
      eapply bounded_weaken; [solve [eauto 1 with bounds] | cbn; lia | cbn; lia]
  end.

Lemma get_file_hash_bounded E p : bounded 0 0 (get_file_hash E p).
Proof. unfold get_file_hash. repeat bounded_step. Qed.

#[export] Hint Resolve get_file_hash_bounded : bounds.

Lemma hashes_match_bounded E s d : bounded 0 0 (hashes_match E s d).
Proof. unfold hashes_match. repeat bounded_step. Qed.

Lemma run_rclone_copy_bounded E s d : bounded 1 0 (run_rclone_copy E s d).
Proof. unfold run_rclone_copy. repeat bounded_step. Qed.

Lemma delete_file_bounded E p : bounded 0 1 (delete_file E p).
Proof. unfold delete_file. repeat bounded_step. Qed.

#[export] Hint Resolve hashes_match_bounded run_rclone_copy_bounded delete_file_bounded : bounds.

Lemma copy_and_verify_bounded E s d f n b : bounded 2 1 (copy_and_verify E s d f n b).
Proof. unfold copy_and_verify. repeat bounded_step. Qed.

#[export] Hint Resolve copy_and_verify_bounded : bounds.

Lemma sync_file_bounded E s d free stop f b : bounded 2 1 (sync_file E s d free stop f b).
Proof. unfold sync_file. repeat bounded_step. Qed.

Lemma sync_plan_bounded E s d free stop files :
  ∀ b, bounded (2 * List.length files) (List.length files) (sync_plan E s d free stop files b).
Proof.
  induction files as [| f files IH]; intros b; cbn [sync_plan List.length].
  - apply bounded_ret.
  - eapply bounded_bind; [apply sync_file_bounded | | lia | lia].
    intros [b' c]. destruct c.
    + eapply bounded_weaken; [apply IH | lia | lia].
    + eapply bounded_weaken; [apply bounded_ret | lia | lia].
Qed.

(** X21. Running a plan costs at most two copies and one deletion for each of
    its files, however the tool answers and also when the run raises. *)
Theorem plan_effort_bounded E source destination free_space stop_time files b w :
  let w' := world_of (sync_plan E source destination free_space stop_time files b w) in
  (List.length (copies (trace w'))
   <= List.length (copies (trace w)) + 2 * List.length files)%nat
  ∧ (List.length (deletes (trace w'))
     <= List.length (deletes (trace w)) + List.length files)%nat.
Proof.
  intros w'. subst w'.
  destruct (sync_plan_bounded E source destination free_space stop_time files b w)
    as (evs & -> & Hc & Hd).
  rewrite copies_app, deletes_app, !length_app. lia.
Qed.

(** ** The counters *)

Ltac counting :=
  repeat first
    [ apply run_rclone_copy_local
    | apply hashes_match_local
    | apply delete_file_local
    | apply footprint_ret; cbn [fst snd]; solve [auto]
    | footprint_step ].

Lemma copy_and_verify_counts E s d f n b :
  footprint no_about (fun r => r.1 = b ∨ r.1 = count_file n b) anything
    (copy_and_verify E s d f n b).
Proof. unfold copy_and_verify. counting. Qed.

Lemma sync_file_counts E s d free stop f b :
  footprint no_about (fun r => r.1 = b ∨ r.1 = count_file (default 0 (Size f)) b) anything
    (sync_file E s d free stop f b).
Proof.
  unfold sync_file.
  repeat first
    [ apply copy_and_verify_counts
    | apply footprint_ret; cbn [fst snd]; solve [auto]
    | footprint_step ].
Qed.

Lemma sync_plan_counts E s d free stop files :
  ∀ b, footprint no_about
         (fun r => total_copied b <= total_copied r.1
                                  <= total_copied b + Z.of_nat (List.length files)
                   ∧ (total_copied r.1 = total_copied b → r.1 = b))
         anything (sync_plan E s d free stop files b).
Proof.
  induction files as [| f files IH]; intros b; cbn [sync_plan].
  - apply footprint_ret. cbn. split; [lia | auto].
  - eapply footprint_bind; [apply sync_file_counts |].
    intros [b1 c] Hb1. cbn [fst] in Hb1. destruct c.
    + eapply footprint_weaken; [apply IH |].
      intros [b2 c2] [Hrange Hsame]. cbn [fst] in *. cbn [List.length].
      destruct Hb1 as [-> | ->]; cbn [count_file total_copied] in *.
      * split; [lia | exact Hsame].
      * split; [lia | intros Heq; lia].
    + apply footprint_ret. cbn [fst List.length].
      destruct Hb1 as [-> | ->]; cbn [count_file total_copied]; split; try lia; auto.
Qed.

(** X22. Over a plan the file counter never falls and rises by at most one for
    each file; when it has not moved, the byte counter has not moved
    either. *)
Theorem counters_bounded E source destination free_space stop_time files b w b' c w' :
  sync_plan E source destination free_space stop_time files b w = Done (b', c) w' →
  total_copied b <= total_copied b' <= total_copied b + Z.of_nat (List.length files)
  ∧ (total_copied b' = total_copied b → total_size_copied b' = total_size_copied b).
Proof.
  intros Hrun.
  destruct (sync_plan_counts E source destination free_space stop_time files b w)
    as (_ & _ & _ & Hres).
  rewrite Hrun in Hres. cbn [fst] in Hres. destruct Hres as [Hrange Hsame].
  split; [exact Hrange |]. intros Heq. rewrite (Hsame Heq). reflexivity.
Qed.

Lemma counters_bounded_witness :
  0 <= 2 <= 0 + Z.of_nat 2 ∧ (2 = 0 → 50 = 0).
Proof.
  eapply (counters_bounded healthy "src:m" "dst:m" 1000 (at_23 noon)
            [entry "B" 20 "h2"; entry "C" 30 "h3"] no_budget fresh
            {| total_copied := 2; total_size_copied := 50 |}).
  vm_compute. reflexivity.
Defined.

(** ** What a pair touches *)

Lemma append_assoc a b c : (a +:+ b) +:+ c = a +:+ b +:+ c.
Proof.
  induction a as [| x a IH]; [reflexivity |].
  rewrite !append_cons. f_equal. exact IH.
Qed.

Lemma under_child root rel : under root (root +:+ "/" +:+ rel) = true.
Proof.
  unfold under. apply prefix_iff. exists rel. symmetry. apply append_assoc.
Qed.

Section PairPaths.

Variables (E : Env) (source destination : string).

Local Abbreviation own := (footprint (pair_event source destination) anything anything).

Lemma check_remote_exists_own p : own (check_remote_exists E p).
Proof. unfold check_remote_exists. footprint_auto. Qed.

Lemma get_file_hash_own p : own (get_file_hash E p).
Proof. unfold get_file_hash. footprint_auto. Qed.

Lemma capacity_own p : own (get_gdrive_free_space_percent_from_path E p).
Proof. unfold get_gdrive_free_space_percent_from_path. footprint_auto. Qed.

Lemma unpack3_own t : own (unpack3 t).
Proof. unfold unpack3. footprint_auto. Qed.

Hint Resolve check_remote_exists_own get_file_hash_own capacity_own unpack3_own : footprints.

Lemma get_cached_files_own p r : own (get_cached_files E p r).
Proof. unfold get_cached_files. footprint_auto. Qed.

Lemma hashes_match_own s d : own (hashes_match E s d).
Proof. unfold hashes_match. footprint_auto. Qed.

Lemma delete_file_own p : under destination p = true → own (delete_file E p).
Proof.
  intros Hp. unfold delete_file.
  eapply footprint_bind with (Q1 := anything); [footprint_auto | intros ? _].
  eapply footprint_bind with (Q1 := anything);
    [apply footprint_call_delete; exact Hp | intros ? _].
  footprint_auto.
Qed.

Lemma run_rclone_copy_own s d :
  under source s = true → under destination d = true → own (run_rclone_copy E s d).
Proof.
  intros Hs Hd. unfold run_rclone_copy.
  eapply footprint_bind with (Q1 := anything);
    [apply footprint_call_copyto; cbn; rewrite Hs, Hd; reflexivity | intros ? _].
  footprint_auto.
Qed.

Hint Resolve get_cached_files_own hashes_match_own : footprints.

Lemma diff_loop_own dict S : ∀ acc, own (diff_loop E destination dict S acc).
Proof.
  induction S as [| f S IH]; intros acc; cbn [diff_loop].
  - footprint_auto.
  - pose proof (delete_file_own _ (under_child destination (Path f))).
    footprint_auto; apply IH.
Qed.

Hint Resolve diff_loop_own : footprints.

Lemma get_files_to_copy_own : own (get_files_to_copy E source destination).
Proof. unfold get_files_to_copy. footprint_auto. Qed.

Lemma copy_and_verify_own rel f n b :
  own (copy_and_verify E (source +:+ "/" +:+ rel) (destination +:+ "/" +:+ rel) f n b).
Proof.
  pose proof (delete_file_own _ (under_child destination rel)).
  pose proof (run_rclone_copy_own _ _ (under_child source rel) (under_child destination rel)).
  unfold copy_and_verify. footprint_auto.
Qed.

Hint Resolve copy_and_verify_own get_files_to_copy_own : footprints.

Lemma sync_file_own free stop f b : own (sync_file E source destination free stop f b).
Proof. unfold sync_file. footprint_auto. Qed.

Lemma sync_plan_own free stop files : ∀ b, own (sync_plan E source destination free stop files b).
Proof.
  induction files as [| f files IH]; intros b; cbn [sync_plan].
  - footprint_auto.
  - eapply footprint_bind with (Q1 := anything); [apply sync_file_own |].
    intros [b' c] _. destruct c; [apply IH | footprint_auto].
Qed.

Hint Resolve sync_plan_own : footprints.

Lemma sync_pair_own stop b : own (sync_pair E stop (source, destination) b).
Proof. unfold sync_pair. cbn [fst snd]. footprint_auto. Qed.

End PairPaths.

(** X23. Whatever the tool answers, the work on a pair deletes only below the
    destination of the pair, and copies only from below its source to
    below its destination. *)
Theorem pair_touches_own_paths E stop_time source destination b w :
  ∃ evs,
    trace (world_of (sync_pair E stop_time (source, destination) b w)) = trace w ++ evs
    ∧ ∀ e, In e evs →
           match e with
           | EDelete p => ∃ rel, p = destination +:+ "/" +:+ rel
           | ECopyto s d =>
               (∃ rel, s = source +:+ "/" +:+ rel) ∧ (∃ rel, d = destination +:+ "/" +:+ rel)
           | _ => True
           end.
Proof.
  destruct (sync_pair_own E source destination stop_time b w) as (evs & Ht & Hall & _).
  exists evs. split; [exact Ht |].
  intros e He. rewrite List.Forall_forall in Hall. specialize (Hall e He).
  assert (Hu : ∀ root p, under root p = true → ∃ rel, p = root +:+ "/" +:+ rel).
  { intros root p Hp. unfold under in Hp. apply prefix_iff in Hp as [rel ->].
    exists rel. apply append_assoc. }
  destruct e; cbn [pair_event] in Hall; auto.
  apply andb_true_iff in Hall as [Hs Hd]. auto.
Qed.

(** ** The plan at the edges *)

(** X13. The source tree does not answer the probe and nothing is cached: the
    plan is empty, the destination is never asked for, and nothing is
    written to the cache, so that the next call tries again. *)
Theorem missing_source_plans_nothing E source destination w :
  (∀ tr, rclone_ls E tr source (Some 1) [] = None) →
  cache w !! plan_file E source (strftime_ymd E (clock E (trace w))) = None →
  cache w !! snapshot_file E source true (strftime_ymd E (clock E (trace w))) = None →
  let probe := [ELog DEBUG (ProbeStart source); ELs source (Some 1) [];
                ELog ERROR (ProbeFailed source)] in
  get_files_to_copy E source destination w
  = Done [] (after w (probe ++ [ELog ERROR (SourceTreeMissing source)]
                      ++ probe ++ [ELog ERROR (NothingToSync source)])).
Proof.
  intros Hgone Hplan Hsnap probe.
  unfold get_files_to_copy.
  unfold bind at 1. cbn [now]. unfold bind at 1. cbn [read_cache]. rewrite Hplan.
  assert (Hsrc : get_cached_files E source true w
                 = Done [] (after w (probe ++ [ELog ERROR (SourceTreeMissing source)]))).
  { unfold get_cached_files.
    unfold bind at 1. cbn [now]. unfold bind at 1. cbn [read_cache]. rewrite Hsnap.
    rewrite (bind_done _ _ _ _ _ (check_remote_exists_fails E source w (Hgone _))).
    cbn [negb]. unfold bind, log, emit, ret, after. cbn [trace cache].
    rewrite <- !app_assoc. reflexivity. }
  rewrite (bind_done _ _ _ _ _ Hsrc). cbn [is_nil].
  unfold bind at 1. rewrite (bind_done _ _ _ _ _ (check_remote_exists_fails E source _ (Hgone _))).
  cbn [ret negb]. unfold bind, log, emit, ret, after. cbn [trace cache].
  rewrite <- !app_assoc. reflexivity.
Qed.

Lemma missing_source_plans_nothing_witness :
  value_of (get_files_to_copy unreachable "src:m" "dst:m" fresh) = Some []
  ∧ cache (world_of (get_files_to_copy unreachable "src:m" "dst:m" fresh)) = ∅.
Proof.
  rewrite (missing_source_plans_nothing unreachable "src:m" "dst:m" fresh).
  - split; reflexivity.
  - intros tr. reflexivity.
  - reflexivity.
  - reflexivity.
Defined.

Lemma filter_all {A} (f : A → bool) l : (∀ x, f x = true) → List.filter f l = l.
Proof.
  intros Hf. induction l as [| x l IH]; [reflexivity |].
  cbn [List.filter]. rewrite Hf, IH. reflexivity.
Qed.

(** X14. The destination tree does not exist yet: every file of the source
    snapshot is planned, in order, and no deletion is sent. *)
Theorem fresh_destination_plans_all E source destination w S w1 :
  cache w !! plan_file E source (strftime_ymd E (clock E (trace w))) = None →
  get_cached_files E source true w = Done S w1 →
  S ≠ [] →
  cache w1 !! snapshot_file E destination false (strftime_ymd E (clock E (trace w1))) = None →
  rclone_ls E (trace w1 ++ [ELog DEBUG (ProbeStart destination)]) destination (Some 1) [] = None →
  value_of (get_files_to_copy E source destination w) = Some S
  ∧ deletes (trace (world_of (get_files_to_copy E source destination w)))
    = deletes (trace w1).
Proof.
  intros Hplan Hsrc Hne Hsnap Hgone.
  assert (Hdst : ∃ w2, get_cached_files E destination false w1 = Done [] w2
                       ∧ deletes (trace w2) = deletes (trace w1)).
  { unfold get_cached_files.
    unfold bind at 1. cbn [now]. unfold bind at 1. cbn [read_cache]. rewrite Hsnap.
    rewrite (bind_done _ _ _ _ _ (check_remote_exists_fails E destination w1 Hgone)).
    cbn [negb]. unfold bind, log, emit, write_cache, ret, after. cbn [trace cache].
    eexists. split; [reflexivity |]. cbn [trace].
    rewrite !deletes_app. cbn. rewrite !app_nil_r. reflexivity. }
  destruct Hdst as (w2 & Hdst & Hdel).
  assert (Hrun : get_files_to_copy E source destination w
                 = bind (diff_loop E destination ∅ S [])
                     (fun files_to_copy =>
                        bind (write_cache (plan_file E source (strftime_ymd E (clock E (trace w))))
                                files_to_copy)
                          (fun _ => ret files_to_copy)) w2).
  { unfold get_files_to_copy.
    unfold bind at 1. cbn [now]. unfold bind at 1. cbn [read_cache]. rewrite Hplan.
    rewrite (bind_done _ _ _ _ _ Hsrc).
    destruct S as [| e S]; [contradiction |]. cbn [is_nil].
    unfold bind at 1. cbn [ret]. rewrite (bind_done _ _ _ _ _ Hdst). reflexivity. }
  rewrite Hrun. unfold bind at 1 3.
  pose proof (diff_loop_extends E destination ∅ S [] w2) as Hval.
  pose proof (diff_loop_deletes E destination ∅ S [] w2) as Hdl.
  assert (Hkeep : List.filter (loop_keeps ∅) S = S).
  { apply filter_all. intros x. unfold loop_keeps. rewrite lookup_empty. reflexivity. }
  assert (Hstale : List.filter (loop_stale ∅) S = []).
  { clear. induction S as [| x S IH]; [reflexivity |]. cbn [List.filter].
    unfold loop_stale at 1. rewrite lookup_empty. exact IH. }
  rewrite Hkeep in Hval. rewrite Hstale in Hdl. cbn [map app] in Hval, Hdl.
  rewrite app_nil_r in Hdl.
  destruct (diff_loop E destination ∅ S [] w2) as [plan w3 | x w3];
    cbn [value_of world_of] in Hval, Hdl; [| discriminate Hval].
  injection Hval as ->. unfold bind, write_cache, ret. cbn [value_of world_of trace].
  split; [reflexivity |].
  rewrite deletes_app, Hdl, Hdel. cbn. apply app_nil_r.
Qed.

Lemma fresh_destination_plans_all_witness :
  value_of (get_files_to_copy first_sync "src:m" "dst:m" fresh) = Some src_tree.
Proof.
  eapply (fresh_destination_plans_all first_sync "src:m" "dst:m" fresh src_tree).
  - reflexivity.
  - vm_compute. reflexivity.
  - discriminate.
  - vm_compute. reflexivity.
  - reflexivity.
Defined.

